(** * Comment and playlist controllers: a shallow embedding

    The two controllers of the video-sharing backend
    ([comment.controller.js], [playlist.controller.js]) are request
    handlers over a document store with five collections.  Each handler
    is embedded as a computation in a state-and-exception monad over the
    store; the aggregation pipelines are embedded stage by stage as list
    functions.  The libraries that the controllers call are modelled by
    what they do on these calls: mongoose as in its versions up to 7,
    which provide every method the controllers use, and the pagination
    plugin mongoose-aggregate-paginate-v2. *)

From Stdlib Require Import List String Ascii ZArith Bool Lia.
From Stdlib Require Import Sorting.Sorted Sorting.Permutation.
Import ListNotations.

Local Open Scope string_scope.
Local Open Scope Z_scope.

(** ** Object ids and JavaScript values *)

(** A stored object id.  [hex] is the canonical text that [toString()]
    returns for it. *)
Inductive ObjectId : Type := OID (hex : string).

Definition toString (o : ObjectId) : string :=
  match o with OID h => h end.

Definition ObjectId_eqb (a b : ObjectId) : bool :=
  String.eqb (toString a) (toString b).

Definition is_digit (c : ascii) : bool :=
  let n := nat_of_ascii c in ((48 <=? n) && (n <=? 57))%nat.

Definition is_hex (c : ascii) : bool :=
  let n := nat_of_ascii c in
  (((48 <=? n) && (n <=? 57)) || ((97 <=? n) && (n <=? 102))
   || ((65 <=? n) && (n <=? 70)))%nat.

Definition lower (c : ascii) : ascii :=
  let n := nat_of_ascii c in
  if ((65 <=? n) && (n <=? 90))%nat then ascii_of_nat (n + 32) else c.

Fixpoint string_forallb (f : ascii -> bool) (s : string) : bool :=
  match s with
  | EmptyString => true
  | String c r => f c && string_forallb f r
  end.

Fixpoint string_map (f : ascii -> ascii) (s : string) : string :=
  match s with
  | EmptyString => EmptyString
  | String c r => String (f c) (string_map f r)
  end.

(** Mongoose is modelled as in its versions up to 7, the versions that
    provide [findByIdAndRemove], which [deletePlaylist] calls.  There
    the text of an object id is either 24 hexadecimal digits or any 12
    characters of one byte each, which are taken as the 12 bytes of the
    id. *)
Definition is_hex24 (s : string) : bool :=
  (String.length s =? 24)%nat && string_forallb is_hex s.

Definition is_one_byte (c : ascii) : bool := (nat_of_ascii c <? 128)%nat.

Definition is_raw12 (s : string) : bool :=
  (String.length s =? 12)%nat && string_forallb is_one_byte s.

(** [isValidObjectId] of mongoose on a path parameter (a string). *)
Definition isValidObjectId (s : string) : bool :=
  is_hex24 s || is_raw12 s.

Definition hex_digit (n : nat) : ascii :=
  if (n <? 10)%nat then ascii_of_nat (48 + n) else ascii_of_nat (87 + n).

(** The hexadecimal text of a string of bytes, two digits a byte. *)
Fixpoint hex_of_bytes (s : string) : string :=
  match s with
  | EmptyString => EmptyString
  | String c r =>
      let n := nat_of_ascii c in
      String (hex_digit (n / 16)) (String (hex_digit (n mod 16))
                                          (hex_of_bytes r))
  end.

(** The cast mongoose applies to an id given as text: it succeeds on
    exactly the texts [isValidObjectId] accepts.  A text of 24 digits
    names the id with that text in lower case, a text of 12 characters
    the id whose bytes are the characters. *)
Definition castObjectId (s : string) : option ObjectId :=
  if is_hex24 s then Some (OID (string_map lower s))
  else if is_raw12 s then Some (OID (hex_of_bytes s))
  else None.

(** A value that may be [undefined], as [req.body.content] or the result
    of an optional chain [a?.b]. *)
Definition truthy (v : option string) : bool :=
  match v with
  | Some s => negb (String.eqb s "")
  | None => false
  end.

(** [a && b] on such values. *)
Definition js_and (a b : option string) : option string :=
  if truthy a then b else a.

(** [a !== b] on such values. *)
Definition strict_neq (a b : option string) : bool :=
  match a, b with
  | Some x, Some y => negb (String.eqb x y)
  | None, None => false
  | _, _ => true
  end.

(** A JavaScript number as the handlers see it: [NaN], an infinity, or
    a double whose value is the integer [z]. *)
Inductive JsNumber : Type := NaN | Num (z : Z) | PosInfinity | NegInfinity.

(** The double nearest to an integer, ties to the even mantissa; an
    integer of magnitude at least 2^1024 after rounding is an infinity. *)
Definition round_to_double (z : Z) : JsNumber :=
  let a := Z.abs z in
  if a <? 2 ^ 53 then Num z
  else
    let e := Z.log2 a - 52 in
    let q := Z.shiftr a e in
    let r := a - Z.shiftl q e in
    let half := Z.shiftl 1 (e - 1) in
    let q' := if (half <? r) || ((r =? half) && Z.odd q) then q + 1 else q in
    let v := Z.shiftl q' e in
    if 2 ^ 1024 <=? v then (if z <? 0 then NegInfinity else PosInfinity)
    else Num (if z <? 0 then - v else v).

(** ** Documents *)

Record UserDoc : Type := mkUser {
  u_id : ObjectId;
  u_username : string;
  u_fullName : string;
  u_avatar_url : string
}.

Record VideoDoc : Type := mkVideo {
  v_id : ObjectId;
  v_owner : option ObjectId;
  v_videoFile_url : string;
  v_thumbnail_url : string;
  v_title : string;
  v_description : string;
  v_duration : Z;
  v_views : Z;
  v_isPublished : bool;
  v_createdAt : Z
}.

Record CommentDoc : Type := mkComment {
  c_id : ObjectId;
  c_content : string;
  c_owner : option ObjectId;
  c_video : ObjectId;
  c_createdAt : Z;
  c_updatedAt : Z
}.

Record LikeDoc : Type := mkLike {
  l_id : ObjectId;
  l_comment : option ObjectId;
  l_video : option ObjectId;
  l_likedBy : ObjectId
}.

Record PlaylistDoc : Type := mkPlaylist {
  p_id : ObjectId;
  p_name : string;
  p_description : string;
  p_owner : option ObjectId;
  p_videos : list ObjectId;
  p_createdAt : Z;
  p_updatedAt : Z
}.

(** The document store: one list per collection, in natural store order. *)
Record Store : Type := mkStore {
  db_users : list UserDoc;
  db_videos : list VideoDoc;
  db_comments : list CommentDoc;
  db_likes : list LikeDoc;
  db_playlists : list PlaylistDoc
}.

(** ** Failures and responses *)

(** The spec's taxonomy of failures; every [throw new ApiError] of the
    controllers is tagged with the kind of the check that raises it. *)
Inductive ErrKind : Type :=
  ValidationError | NotFound | PermissionDenied | InternalError.

Inductive Error : Type :=
| ApiError (kind : ErrKind) (statusCode : Z) (message : string)
| CastError (value : string)   (* mongoose: the text is not an object id *)
| TypeError.                   (* a property read on [undefined] *)

Record ApiResponse (D Msg : Type) : Type := mkApiResponse {
  statusCode : Z;
  data : D;
  message : Msg
}.
Arguments mkApiResponse {D Msg} _ _ _.
Arguments statusCode {D Msg} _.
Arguments data {D Msg} _.
Arguments message {D Msg} _.

(** ** The handler monad

    A handler reads and writes the store and may throw.  A throw keeps
    the store as it is at that point: whatever was written before the
    throw stays written. *)

Inductive Result (A : Type) : Type :=
| Ok (a : A)
| Err (e : Error).
Arguments Ok {A} _.
Arguments Err {A} _.

Definition M (A : Type) : Type := Store -> Result A * Store.

Definition ret {A} (a : A) : M A := fun s => (Ok a, s).

Definition throw {A} (e : Error) : M A := fun s => (Err e, s).

Definition bind {A B} (m : M A) (k : A -> M B) : M B :=
  fun s =>
    match m s with
    | (Ok a, s') => k a s'
    | (Err e, s') => (Err e, s')
    end.

Definition get : M Store := fun s => (Ok s, s).

Definition put (s' : Store) : M unit := fun _ => (Ok tt, s').

Declare Scope handler_scope.
Delimit Scope handler_scope with handler.
Notation "x <- m ;; k" := (bind m (fun x => k))
  (at level 61, m at next level, right associativity) : handler_scope.
Notation "m ;;; k" := (bind m (fun _ => k))
  (at level 61, right associativity) : handler_scope.
Local Open Scope handler_scope.

Definition outcome {A} (r : Result A * Store) : Result A := fst r.
Definition store_after {A} (r : Result A * Store) : Store := snd r.

(** The cast of an id given as text, inside a query. *)
Definition cast (id : string) : M ObjectId :=
  match castObjectId id with
  | Some o => ret o
  | None => throw (CastError id)
  end.

(** ** Collections: the model methods the controllers call *)

Section Collection.
Context {D : Type} (id_of : D -> ObjectId).

Definition find_by_id (o : ObjectId) (l : list D) : option D :=
  find (fun d => ObjectId_eqb (id_of d) o) l.

(** Apply [f] to the first document with id [o]. *)
Fixpoint update_by_id (o : ObjectId) (f : D -> D) (l : list D) : list D :=
  match l with
  | [] => []
  | d :: r =>
      if ObjectId_eqb (id_of d) o then f d :: r
      else d :: update_by_id o f r
  end.

(** Remove the first document with id [o]. *)
Fixpoint delete_by_id (o : ObjectId) (l : list D) : list D :=
  match l with
  | [] => []
  | d :: r =>
      if ObjectId_eqb (id_of d) o then r
      else d :: delete_by_id o r
  end.
End Collection.

Module Video.
Definition findById (id : string) : M (option VideoDoc) :=
  o <- cast id ;;
  s <- get ;;
  ret (find_by_id v_id o (db_videos s)).
End Video.

Module Comment.
Definition set_comments (l : list CommentDoc) (s : Store) : Store :=
  mkStore (db_users s) (db_videos s) l (db_likes s) (db_playlists s).

Definition findById (id : string) : M (option CommentDoc) :=
  o <- cast id ;;
  s <- get ;;
  ret (find_by_id c_id o (db_comments s)).

(** [Comment.create({content, owner, video})]; the store supplies the
    new [_id] and the timestamps. *)
Definition create (newId : ObjectId) (now : Z) (content : string)
    (owner : option ObjectId) (video : string) : M (option CommentDoc) :=
  v <- cast video ;;
  s <- get ;;
  let c := mkComment newId content owner v now now in
  put (set_comments (db_comments s ++ [c]) s) ;;;
  ret (Some c).

(** An update rewrites the document and stamps [updatedAt]. *)
Definition touch (now : Z) (upd : CommentDoc -> CommentDoc) (c : CommentDoc)
  : CommentDoc :=
  let c' := upd c in
  mkComment (c_id c') (c_content c') (c_owner c') (c_video c')
            (c_createdAt c') now.

(** [Comment.findByIdAndUpdate(id, {$set: ...}, {new: true})]. *)
Definition findByIdAndUpdate (o : ObjectId) (now : Z)
    (upd : CommentDoc -> CommentDoc) : M (option CommentDoc) :=
  s <- get ;;
  let s' :=
    set_comments (update_by_id c_id o (touch now upd) (db_comments s)) s in
  put s' ;;;
  ret (find_by_id c_id o (db_comments s')).

Definition findByIdAndDelete (id : string) : M (option CommentDoc) :=
  o <- cast id ;;
  s <- get ;;
  put (set_comments (delete_by_id c_id o (db_comments s)) s) ;;;
  ret (find_by_id c_id o (db_comments s)).
End Comment.

Module Like.
Definition set_likes (l : list LikeDoc) (s : Store) : Store :=
  mkStore (db_users s) (db_videos s) (db_comments s) l (db_playlists s).

(** A plain object with the paths [comment] and [likedBy], as the
    controller builds it; a path whose value is [undefined] is left
    out. *)
Record Fields : Type := mkFields {
  lf_comment : option ObjectId;
  lf_likedBy : option ObjectId
}.

(** The object read as a filter: equality on the paths it has. *)
Definition matches (f : Fields) (l : LikeDoc) : bool :=
  match lf_comment f with
  | Some c => match l_comment l with
              | Some c' => ObjectId_eqb c' c
              | None => false
              end
  | None => true
  end
  && match lf_likedBy f with
     | Some u => ObjectId_eqb (l_likedBy l) u
     | None => true
     end.

(** The object read as an update: [$set] of the paths it has. *)
Definition assign (f : Fields) (l : LikeDoc) : LikeDoc :=
  mkLike (l_id l)
         match lf_comment f with Some c => Some c | None => l_comment l end
         (l_video l)
         match lf_likedBy f with Some u => u | None => l_likedBy l end.

(** [Like.updateMany(conditions, doc)].  Called with one object and
    nothing else, mongoose takes that object as the update and an empty
    filter: every document of the collection is rewritten.  No document
    is ever removed by the call. *)
Definition updateMany (conditions : Fields) (doc : option Fields) : M unit :=
  s <- get ;;
  match doc with
  | Some d =>
      put (set_likes (map (fun l => if matches conditions l then assign d l
                                    else l)
                          (db_likes s)) s)
  | None => put (set_likes (map (assign conditions) (db_likes s)) s)
  end.
End Like.

Module Playlist.
Definition set_playlists (l : list PlaylistDoc) (s : Store) : Store :=
  mkStore (db_users s) (db_videos s) (db_comments s) (db_likes s) l.

Definition findById (id : string) : M (option PlaylistDoc) :=
  o <- cast id ;;
  s <- get ;;
  ret (find_by_id p_id o (db_playlists s)).

(** [Playlist.create({name, description, owner})]: the video list of
    a new playlist is empty. *)
Definition create (newId : ObjectId) (now : Z) (name description : string)
    (owner : option ObjectId) : M (option PlaylistDoc) :=
  s <- get ;;
  let p := mkPlaylist newId name description owner [] now now in
  put (set_playlists (db_playlists s ++ [p]) s) ;;;
  ret (Some p).

(** An update rewrites the document and stamps [updatedAt]. *)
Definition touch (now : Z) (upd : PlaylistDoc -> PlaylistDoc) (p : PlaylistDoc)
  : PlaylistDoc :=
  let p' := upd p in
  mkPlaylist (p_id p') (p_name p') (p_description p') (p_owner p')
             (p_videos p') (p_createdAt p') now.

(** The update of the document with object id [o], returning the new
    document ([{new: true}]). *)
Definition updateOne (o : ObjectId) (now : Z)
    (upd : PlaylistDoc -> PlaylistDoc) : M (option PlaylistDoc) :=
  s <- get ;;
  let s' :=
    set_playlists (update_by_id p_id o (touch now upd) (db_playlists s)) s in
  put s' ;;;
  ret (find_by_id p_id o (db_playlists s')).

(** [Playlist.findByIdAndUpdate(id, update, {new: true})] with the id
    given as text. *)
Definition findByIdAndUpdate (id : string) (now : Z)
    (upd : PlaylistDoc -> PlaylistDoc) : M (option PlaylistDoc) :=
  o <- cast id ;;
  updateOne o now upd.

(** The same call with a document in the place of the id: mongoose
    casts the document to its [_id]. *)
Definition findByIdAndUpdate_doc (doc : PlaylistDoc) (now : Z)
    (upd : PlaylistDoc -> PlaylistDoc) : M (option PlaylistDoc) :=
  updateOne (p_id doc) now upd.

Definition findByIdAndRemove (id : string) : M (option PlaylistDoc) :=
  o <- cast id ;;
  s <- get ;;
  put (set_playlists (delete_by_id p_id o (db_playlists s)) s) ;;;
  ret (find_by_id p_id o (db_playlists s)).
End Playlist.

(** Update operators on the video list of a playlist. *)
Definition addToSet (x : ObjectId) (l : list ObjectId) : list ObjectId :=
  if existsb (ObjectId_eqb x) l then l else l ++ [x].

Definition pull (x : ObjectId) (l : list ObjectId) : list ObjectId :=
  filter (fun y => negb (ObjectId_eqb y x)) l.

Definition set_videos (vs : list ObjectId) (p : PlaylistDoc) : PlaylistDoc :=
  mkPlaylist (p_id p) (p_name p) (p_description p) (p_owner p) vs
             (p_createdAt p) (p_updatedAt p).

Definition set_name_description (n d : string) (p : PlaylistDoc)
  : PlaylistDoc :=
  mkPlaylist (p_id p) n d (p_owner p) (p_videos p)
             (p_createdAt p) (p_updatedAt p).

Definition set_content (c : string) (d : CommentDoc) : CommentDoc :=
  mkComment (c_id d) c (c_owner d) (c_video d) (c_createdAt d) (c_updatedAt d).

(** ** Aggregation: field access and [$lookup] *)

(** The values that join keys and matched fields take. *)
Inductive Bson : Type :=
| BNull
| BObjectId (o : ObjectId)
| BString (s : string)
| BNumber (z : Z)
| BBool (b : bool).

Definition Bson_eqb (a b : Bson) : bool :=
  match a, b with
  | BNull, BNull => true
  | BObjectId x, BObjectId y => ObjectId_eqb x y
  | BString x, BString y => String.eqb x y
  | BNumber x, BNumber y => Z.eqb x y
  | BBool x, BBool y => Bool.eqb x y
  | _, _ => false
  end.

(** A field that a document does not have reads as [null] in a join. *)
Definition orNull (v : option Bson) : Bson :=
  match v with Some b => b | None => BNull end.

(** The field of a user document with the given name; [None] when the
    document has no field of that name. *)
Definition User_field (f : string) (u : UserDoc) : option Bson :=
  if String.eqb f "_id" then Some (BObjectId (u_id u))
  else if String.eqb f "username" then Some (BString (u_username u))
  else if String.eqb f "fullName" then Some (BString (u_fullName u))
  else None.

Definition Video_field (f : string) (v : VideoDoc) : option Bson :=
  if String.eqb f "_id" then Some (BObjectId (v_id v))
  else if String.eqb f "owner" then option_map BObjectId (v_owner v)
  else if String.eqb f "title" then Some (BString (v_title v))
  else if String.eqb f "description" then Some (BString (v_description v))
  else if String.eqb f "duration" then Some (BNumber (v_duration v))
  else if String.eqb f "views" then Some (BNumber (v_views v))
  else if String.eqb f "isPublished" then Some (BBool (v_isPublished v))
  else if String.eqb f "createdAt" then Some (BNumber (v_createdAt v))
  else None.

Definition Like_field (f : string) (l : LikeDoc) : option Bson :=
  if String.eqb f "_id" then Some (BObjectId (l_id l))
  else if String.eqb f "comment" then option_map BObjectId (l_comment l)
  else if String.eqb f "video" then option_map BObjectId (l_video l)
  else if String.eqb f "likedBy" then Some (BObjectId (l_likedBy l))
  else None.

Section Lookup.
Context {F : Type} (field : string -> F -> option Bson).

(** [$lookup] with a scalar local field: the documents of the foreign
    collection whose [foreignField] equals the local value, in store
    order. *)
Definition lookup (from : list F) (localValue : option Bson)
    (foreignField : string) : list F :=
  filter (fun d => Bson_eqb (orNull localValue) (orNull (field foreignField d)))
         from.

(** [$lookup] with an array as local field: the foreign documents whose
    [foreignField] equals some element of the array, each once, in store
    order. *)
Definition lookup_array (from : list F) (localValues : list Bson)
    (foreignField : string) : list F :=
  filter (fun d => existsb (Bson_eqb (orNull (field foreignField d)))
                           localValues)
         from.
End Lookup.

(** ** Views *)

Record OwnerView : Type := mkOwnerView {
  o_username : string;
  o_fullName : string;
  o_avatar_url : string
}.

Definition project_owner (u : UserDoc) : OwnerView :=
  mkOwnerView (u_username u) (u_fullName u) (u_avatar_url u).

Record VideoView : Type := mkVideoView {
  vv_id : ObjectId;
  vv_videoFile_url : string;
  vv_thumbnail_url : string;
  vv_title : string;
  vv_description : string;
  vv_duration : Z;
  vv_createdAt : Z;
  vv_views : Z
}.

Definition project_video (v : VideoDoc) : VideoView :=
  mkVideoView (v_id v) (v_videoFile_url v) (v_thumbnail_url v) (v_title v)
              (v_description v) (v_duration v) (v_createdAt v) (v_views v).

Record PlaylistDetail : Type := mkPlaylistDetail {
  pd_id : ObjectId;
  pd_name : string;
  pd_description : string;
  pd_createdAt : Z;
  pd_updatedAt : Z;
  pd_totalVideos : Z;
  pd_totalViews : Z;
  pd_videos : list VideoView;
  pd_owner : option OwnerView
}.

Definition sum_views (vs : list VideoDoc) : Z :=
  fold_right Z.add 0 (map v_views vs).

(** ** playlist.controller.js *)

Definition value (v : option string) : string :=
  match v with Some s => s | None => "" end.

Definition createPlaylist (name description : option string)
    (user : option ObjectId) (newId : ObjectId) (now : Z)
  : M (ApiResponse PlaylistDoc string) :=
  if negb (truthy name) || negb (truthy description) then
    throw (ApiError ValidationError 400
             "name and description both are required")
  else
    playlist <- Playlist.create newId now (value name) (value description)
                                user ;;
    match playlist with
    | None => throw (ApiError InternalError 500 "failed to create playlist")
    | Some p => ret (mkApiResponse 200 p "playlist created successfully")
    end.

(** The pipeline of [getPlaylistById], one definition per stage. *)

Definition pd_match_id (o : ObjectId) (ps : list PlaylistDoc)
  : list PlaylistDoc :=
  filter (fun p => ObjectId_eqb (p_id p) o) ps.

Definition pd_lookup_videos (s : Store) (p : PlaylistDoc)
  : PlaylistDoc * list VideoDoc :=
  (p, lookup_array Video_field (db_videos s)
                   (map BObjectId (p_videos p)) "_id").

(** [$match: {"videos.isPublished": true}]: the stage keeps a document
    when some element of its [videos] array has [isPublished] true, and
    keeps the array of a kept document whole. *)
Definition pd_match_published (d : PlaylistDoc * list VideoDoc) : bool :=
  existsb (fun v => Bson_eqb (orNull (Video_field "isPublished" v))
                             (BBool true))
          (snd d).

Definition pd_lookup_owner (s : Store) (d : PlaylistDoc * list VideoDoc)
  : PlaylistDoc * list VideoDoc * list UserDoc :=
  (d, lookup User_field (db_users s)
             (option_map BObjectId (p_owner (fst d))) "_id").

Definition pd_addFields_project
    (d : PlaylistDoc * list VideoDoc * list UserDoc) : PlaylistDetail :=
  let '(p, videos, owner) := d in
  mkPlaylistDetail (p_id p) (p_name p) (p_description p)
    (p_createdAt p) (p_updatedAt p)
    (Z.of_nat (List.length videos))            (* $size: "$videos" *)
    (sum_views videos)                    (* $sum: "$videos.views" *)
    (map project_video videos)
    (option_map project_owner (hd_error owner)).   (* $first: "$owner" *)

Definition playlistVideosAggregate (s : Store) (o : ObjectId)
  : list PlaylistDetail :=
  map pd_addFields_project
    (map (pd_lookup_owner s)
       (filter pd_match_published
          (map (pd_lookup_videos s)
             (pd_match_id o (db_playlists s))))).

Definition getPlaylistById (playlistId : string)
  : M (ApiResponse (option PlaylistDetail) string) :=
  if negb (isValidObjectId playlistId) then
    throw (ApiError ValidationError 400 "playlistId is invalid")
  else
    playlist <- Playlist.findById playlistId ;;
    match playlist with
    | None => throw (ApiError NotFound 404 "playlist not found")
    | Some _ =>
        o <- cast playlistId ;;
        s <- get ;;
        let playlistVideos := playlistVideosAggregate s o in
        ret (mkApiResponse 200 (hd_error playlistVideos)
                           "playlist fetched successfully")
    end.

(** The ownership test shared by the two membership handlers:
    [(playlist.owner?.toString() && video.owner?.toString())
       !== req.user?._id.toString()]. *)
Definition not_owner (playlist : PlaylistDoc) (video : VideoDoc)
    (user : option ObjectId) : bool :=
  strict_neq (js_and (option_map toString (p_owner playlist))
                     (option_map toString (v_owner video)))
             (option_map toString user).

Definition addVideoToPlaylist (playlistId videoId : string)
    (user : option ObjectId) (now : Z)
  : M (ApiResponse PlaylistDoc string) :=
  if negb (isValidObjectId playlistId || isValidObjectId videoId) then
    throw (ApiError ValidationError 400 "playlistId or videoId is invalid")
  else
    playlist <- Playlist.findById playlistId ;;
    video <- Video.findById videoId ;;
    match playlist with
    | None => throw (ApiError NotFound 400 "playlist not found")
    | Some playlist =>
    match video with
    | None => throw (ApiError NotFound 400 "video not found")
    | Some video =>
        if not_owner playlist video user then
          throw (ApiError PermissionDenied 400
                   "only owner can add video to thier playlist")
        else
          v <- cast videoId ;;
          updatedPlaylist <-
            Playlist.findByIdAndUpdate playlistId now
              (fun p => set_videos (addToSet v (p_videos p)) p) ;;
          match updatedPlaylist with
          | None =>
              throw (ApiError InternalError 500
                       "failed to add video to playlist please try again")
          | Some p =>
              ret (mkApiResponse 200 p "Added video to playlist successfully")
          end
    end
    end.

Definition removeVideoFromPlaylist (playlistId videoId : string)
    (user : option ObjectId) (now : Z)
  : M (ApiResponse (option PlaylistDoc) string) :=
  if negb (isValidObjectId playlistId || isValidObjectId videoId) then
    throw (ApiError ValidationError 400 "playlistId or videoId is invalid")
  else
    playlist <- Playlist.findById playlistId ;;
    video <- Video.findById videoId ;;
    match playlist with
    | None => throw (ApiError NotFound 400 "playlist not found")
    | Some playlist =>
    match video with
    | None => throw (ApiError NotFound 400 "video not found")
    | Some video =>
        if not_owner playlist video user then
          throw (ApiError PermissionDenied 400
                   "only owner can remove video to thier playlist")
        else
          v <- cast videoId ;;
          updatedPlaylist <-
            Playlist.findByIdAndUpdate_doc playlist now
              (fun p => set_videos (pull v (p_videos p)) p) ;;
          ret (mkApiResponse 200 updatedPlaylist
                             "Removed video from playlist successfully")
    end
    end.

(** [x.toString()] on a value that may be [undefined]. *)
Definition toString_of (x : option ObjectId) : M string :=
  match x with
  | Some o => ret (toString o)
  | None => throw TypeError
  end.

Definition deletePlaylist (playlistId : string) (user : option ObjectId)
  : M (ApiResponse string unit) :=
  if negb (isValidObjectId playlistId) then
    throw (ApiError ValidationError 400 "playlistId or videoId is invalid")
  else
    playlist <- Playlist.findById playlistId ;;
    match playlist with
    | None => throw (ApiError NotFound 400 "playlistId not found")
    | Some playlist =>
        if strict_neq (option_map toString (p_owner playlist))
                      (option_map toString user) then
          throw (ApiError PermissionDenied 400
                   "only owner can delete video to thier playlist")
        else
          Playlist.findByIdAndRemove playlistId ;;;
          ret (mkApiResponse 200 "playlist deleted successfully" tt)
    end.

Definition updatePlaylist (playlistId : string) (name description : option string)
    (user : option ObjectId) (now : Z)
  : M (ApiResponse (option PlaylistDoc) string) :=
  if negb (isValidObjectId playlistId) then
    throw (ApiError ValidationError 400 "playlistId or videoId is invalid")
  else if negb (truthy name) || negb (truthy description) then
    throw (ApiError ValidationError 400 "name and description are requiered")
  else
    playlist <- Playlist.findById playlistId ;;
    match playlist with
    | None => throw (ApiError NotFound 400 "playlist not found")
    | Some playlist =>
        me <- toString_of user ;;      (* req.user._id.toString() *)
        if strict_neq (option_map toString (p_owner playlist)) (Some me) then
          throw (ApiError PermissionDenied 400
                   "only owner can update to thier playlist")
        else
          updatedPlaylist <-
            Playlist.findByIdAndUpdate playlistId now
              (set_name_description (value name) (value description)) ;;
          ret (mkApiResponse 200 updatedPlaylist
                             "playlist updated successfully")
    end.

(** The pipeline of [getUserPlaylists]. *)

Record PlaylistSummary : Type := mkPlaylistSummary {
  ps_id : ObjectId;
  ps_name : string;
  ps_description : string;
  ps_totalVideos : Z;
  ps_totalViews : Z;
  ps_updatedAt : Z
}.

(** [$match: {owner: ObjectId(userId)}]: a playlist without owner
    matches no user. *)
Definition up_match_owner (o : ObjectId) (ps : list PlaylistDoc)
  : list PlaylistDoc :=
  filter (fun p => match p_owner p with
                   | Some w => ObjectId_eqb w o
                   | None => false
                   end) ps.

Definition up_addFields_project (d : PlaylistDoc * list VideoDoc)
  : PlaylistSummary :=
  let '(p, videos) := d in
  mkPlaylistSummary (p_id p) (p_name p) (p_description p)
    (Z.of_nat (List.length videos))       (* $size: "$videos" *)
    (sum_views videos)                    (* $sum: "$videos.views" *)
    (p_updatedAt p).

Definition userPlaylistsAggregate (s : Store) (o : ObjectId)
  : list PlaylistSummary :=
  map up_addFields_project
    (map (pd_lookup_videos s) (up_match_owner o (db_playlists s))).

Definition getUserPlaylists (userId : string)
  : M (ApiResponse string (list PlaylistSummary)) :=
  if negb (isValidObjectId userId) then
    throw (ApiError ValidationError 400 "Invalid userId")
  else
    o <- cast userId ;;
    s <- get ;;
    let playlists := userPlaylistsAggregate s o in
    ret (mkApiResponse 200 "User playlists fetched successfully" playlists).

(** ** comment.controller.js *)

(** [parseInt(text, 10)]: leading white space is skipped, a sign is read,
    then the longest run of decimal digits; no digit at all gives [NaN],
    and the integer read is returned as the nearest double. *)
Definition is_space (c : ascii) : bool :=
  let n := nat_of_ascii c in
  ((n =? 32) || ((9 <=? n) && (n <=? 13)))%nat.

Fixpoint skip_spaces (s : string) : string :=
  match s with
  | String c r => if is_space c then skip_spaces r else s
  | EmptyString => s
  end.

Definition digit_value (c : ascii) : Z := Z.of_nat (nat_of_ascii c) - 48.

Fixpoint read_digits (s : string) (acc : option Z) : option Z :=
  match s with
  | String c r =>
      if is_digit c then
        read_digits r
          (Some (10 * match acc with Some a => a | None => 0 end
                 + digit_value c))
      else acc
  | EmptyString => acc
  end.

Definition parseInt10 (s : string) : JsNumber :=
  let t := skip_spaces s in
  let '(sign, body) :=
    match t with
    | String "-" r => (-1, r)
    | String "+" r => (1, r)
    | _ => (1, t)
    end in
  match read_digits body None with
  | Some n => round_to_double (sign * n)
  | None => NaN
  end.

(** A query parameter after destructuring with a default: the text that
    was supplied, or the number that the default gives. *)
Inductive QueryValue : Type :=
| QText (s : string)
| QNumber (z : Z).

Definition with_default (q : option string) (d : Z) : QueryValue :=
  match q with
  | Some s => QText s
  | None => QNumber d
  end.

Fixpoint pow10_below (fuel : nat) (a p : Z) : Z :=
  match fuel with
  | O => p
  | S f => if 10 * p <=? a then pow10_below f a (10 * p) else p
  end.

(** The first digit of the text of a double [a] of at least 10^21.  The
    text of such a number is in exponent notation and has the fewest
    digits that read back as [a]: its first digit is that of [a], or
    the next one when the next multiple of the leading power of ten
    still rounds to [a]. *)
Definition first_digit_shortest (a : Z) : Z :=
  let p := pow10_below (Z.to_nat (Z.log2 a)) a 1 in
  let lead := a / p in
  let next := (lead + 1) * p in
  let e := Z.log2 a - 52 in
  let m := Z.shiftr a e in
  let hi := a + Z.shiftl 1 (e - 1) in
  if (if Z.even m then next <=? hi else next <? hi)
  then (if lead =? 9 then 1 else lead + 1)
  else lead.

(** [parseInt(x, 10)] of a number [x]: the number is turned into its
    text, which is then parsed.  [NaN] and the infinities have a text
    without digit; below 10^21 the text reads back as the number; from
    10^21 on it is in exponent notation, of which [parseInt] reads the
    first digit. *)
Definition parseInt_number (x : JsNumber) : JsNumber :=
  match x with
  | Num z =>
      if Z.abs z <? 10 ^ 21 then round_to_double z
      else Num (Z.sgn z * first_digit_shortest (Z.abs z))
  | _ => NaN
  end.

Definition parseInt (v : QueryValue) : JsNumber :=
  match v with
  | QText s => parseInt10 s
  | QNumber z => parseInt_number (Num z)
  end.

Record PaginateOptions : Type := mkOptions {
  page : JsNumber;
  limit : JsNumber
}.

(** [const { page = 1, limit = 10 } = req.query] followed by
    [{ page: parseInt(page, 10), limit: parseInt(limit, 10) }]. *)
Definition paginate_options (q_page q_limit : option string)
  : PaginateOptions :=
  let page := with_default q_page 1 in
  let limit := with_default q_limit 10 in
  mkOptions (parseInt page) (parseInt limit).

Record CommentView : Type := mkCommentView {
  cv_id : ObjectId;
  cv_content : string;
  cv_createdAt : Z;
  cv_likesCount : Z;
  cv_owner : option OwnerView;
  cv_isLiked : bool
}.

(** A comment on its way through the pipeline: the document with the
    arrays that the two [$lookup] stages attach. *)
Record CommentJoined : Type := mkJoined {
  cj_doc : CommentDoc;
  cj_owner : list UserDoc;
  cj_likes : list LikeDoc
}.

Definition cm_match_video (v : ObjectId) (cs : list CommentDoc)
  : list CommentDoc :=
  filter (fun c => ObjectId_eqb (c_video c) v) cs.

(** The two joins.  The owner join names its foreign field ["_id,"],
    as the source does. *)
Definition cm_lookup (s : Store) (c : CommentDoc) : CommentJoined :=
  mkJoined c
    (lookup User_field (db_users s) (option_map BObjectId (c_owner c)) "_id,")
    (lookup Like_field (db_likes s) (Some (BObjectId (c_id c))) "comment").

(** [$in: [x, "$likes.likedBy"]]; an [undefined] first element reaches
    the store as [null]. *)
Definition in_likedBy (x : option ObjectId) (likes : list LikeDoc) : bool :=
  existsb (Bson_eqb (orNull (option_map BObjectId x)))
          (map (fun l => orNull (Like_field "likedBy" l)) likes).

(** [$sort: {createdAt: -1}], stable. *)
Fixpoint insert_desc (x : CommentJoined) (l : list CommentJoined)
  : list CommentJoined :=
  match l with
  | [] => [x]
  | y :: r =>
      if c_createdAt (cj_doc y) <=? c_createdAt (cj_doc x) then x :: y :: r
      else y :: insert_desc x r
  end.

Definition sort_createdAt_desc (l : list CommentJoined) : list CommentJoined :=
  fold_right insert_desc [] l.

(** [$addFields] and [$project] on one document. *)
Definition cm_addFields_project (viewer : option ObjectId) (j : CommentJoined)
  : CommentView :=
  mkCommentView (c_id (cj_doc j)) (c_content (cj_doc j))
    (c_createdAt (cj_doc j))
    (Z.of_nat (List.length (cj_likes j)))          (* $size: "$likes" *)
    (option_map project_owner (hd_error (cj_owner j)))   (* $first: "$owner" *)
    (if in_likedBy viewer (cj_likes j) then true else false).

Definition commentAggregate (s : Store) (v : ObjectId)
    (viewer : option ObjectId) : list CommentView :=
  map (cm_addFields_project viewer)
    (sort_createdAt_desc
       (map (cm_lookup s) (cm_match_video v (db_comments s)))).

(** What [aggregatePaginate] returns. *)
Record PagedResult : Type := mkPaged {
  docs : list CommentView;
  totalDocs : Z;
  pr_limit : Z;
  pr_page : Z;
  totalPages : Z
}.

Section CommentController.

(** The pagination plugin is a dependency of the repository and no part
    of its source; the handlers take it as a parameter. *)
Variable aggregatePaginate : list CommentView -> PaginateOptions -> PagedResult.

Definition getVideoComments (videoId : string) (q_page q_limit : option string)
    (user : option ObjectId) : M (ApiResponse PagedResult string) :=
  video <- Video.findById videoId ;;
  match video with
  | None => throw (ApiError NotFound 404 "Video not found")
  | Some _ =>
      v <- cast videoId ;;
      s <- get ;;
      let aggregate := commentAggregate s v user in
      let options := paginate_options q_page q_limit in
      let comments := aggregatePaginate aggregate options in
      ret (mkApiResponse 200 comments "Comments fetched successfully")
  end.

End CommentController.

Definition addComment (videoId : string) (content : option string)
    (user : option ObjectId) (newId : ObjectId) (now : Z)
  : M (ApiResponse string CommentDoc) :=
  if negb (truthy content) then
    throw (ApiError ValidationError 400 "content can not be empty")
  else
    video <- Video.findById videoId ;;
    match video with
    | None => throw (ApiError NotFound 400 "video not found")
    | Some _ =>
        comment <- Comment.create newId now (value content) user videoId ;;
        match comment with
        | None =>
            throw (ApiError InternalError 500
                     "Failed to add comment please try again")
        | Some c => ret (mkApiResponse 201 "Comment added successfully" c)
        end
    end.

Definition updateComment (commentId : string) (content : option string)
    (user : option ObjectId) (now : Z)
  : M (ApiResponse CommentDoc string) :=
  if negb (truthy content) then
    throw (ApiError ValidationError 400 "content is required to update")
  else
    comment <- Comment.findById commentId ;;
    match comment with
    | None => throw (ApiError NotFound 400 "Comment not found")
    | Some comment =>
        owner <- toString_of (c_owner comment) ;;
        if strict_neq (Some owner) (option_map toString user) then
          throw (ApiError PermissionDenied 400
                   "only comment owner can edit their comment")
        else
          updatedComment <-
            Comment.findByIdAndUpdate (c_id comment) now
              (set_content (value content)) ;;
          match updatedComment with
          | None =>
              throw (ApiError InternalError 500
                       "Failed to edit comment please try again")
          | Some c => ret (mkApiResponse 200 c "Comment edited successfully")
          end
    end.

Definition deleteComment (commentId : string) (user : option ObjectId)
  : M (ApiResponse string string) :=
  comment <- Comment.findById commentId ;;
  match comment with
  | None => throw (ApiError NotFound 404 "Comment not found")
  | Some comment =>
      owner <- toString_of (c_owner comment) ;;
      if strict_neq (Some owner) (option_map toString user) then
        throw (ApiError PermissionDenied 400
                 "only comment owner can delete their comment")
      else
        Comment.findByIdAndDelete commentId ;;;
        o <- cast commentId ;;
        Like.updateMany (Like.mkFields (Some o) user) None ;;;
        ret (mkApiResponse 200 commentId "Comment deleted successfully")
  end.

(** ** Properties stated in the spec's words *)

(** The Like records that reference comment [c]. *)
Definition likes_referencing (s : Store) (c : ObjectId) : list LikeDoc :=
  filter (fun l => match l_comment l with
                   | Some c' => ObjectId_eqb c' c
                   | None => false
                   end)
         (db_likes s).

(** The published videos among the members of a playlist. *)
Definition published_members (s : Store) (p : PlaylistDoc) : list VideoDoc :=
  filter (fun v => existsb (ObjectId_eqb (v_id v)) (p_videos p)
                   && v_isPublished v)
         (db_videos s).

(** The store keeps [_id] unique within the playlists collection. *)
Definition unique_playlist_ids (s : Store) : Prop :=
  NoDup (map p_id (db_playlists s)).

(** The invariant of the data model on video membership: the video list
    of a stored playlist has no duplicate entry. *)
Definition playlists_are_sets (s : Store) : Prop :=
  Forall (fun p => NoDup (p_videos p)) (db_playlists s).

(** The store keeps [_id] unique within the comments collection. *)
Definition unique_comment_ids (s : Store) : Prop :=
  NoDup (map c_id (db_comments s)).

(** The member videos of a playlist that are in the store. *)
Definition member_videos (s : Store) (p : PlaylistDoc) : list VideoDoc :=
  filter (fun v => existsb (ObjectId_eqb (v_id v)) (p_videos p))
         (db_videos s).

(** An id in its canonical text: the cast of the text gives the id back. *)
Definition canonical (o : ObjectId) : Prop :=
  castObjectId (toString o) = Some o.

(** The order of the feed on joined comments: [a] may stand before [b]. *)
Definition newer_first (a b : CommentJoined) : Prop :=
  c_createdAt (cj_doc b) <= c_createdAt (cj_doc a).



(** The failures that a handler raises from a check of its input, of the
    existence of a document, or of ownership. *)
Definition is_rejection (e : Error) : bool :=
  match e with
  | ApiError ValidationError _ _ => true
  | ApiError NotFound _ _ => true
  | ApiError PermissionDenied _ _ => true
  | _ => false
  end.

Definition ObjectId_eq_dec (a b : ObjectId) : {a = b} + {a <> b}.
Proof. decide equality. apply string_dec. Defined.

(** ** A sample store *)

Definition alice : ObjectId := OID "aaaaaaaaaaaaaaaaaaaaaaaa".
Definition bob : ObjectId := OID "bbbbbbbbbbbbbbbbbbbbbbbb".
Definition vid1 : ObjectId := OID "111111111111111111111111".
Definition vid2 : ObjectId := OID "222222222222222222222222".
Definition pl1 : ObjectId := OID "cccccccccccccccccccccccc".
Definition pl2 : ObjectId := OID "dddddddddddddddddddddddd".
Definition com1 : ObjectId := OID "eeeeeeeeeeeeeeeeeeeeeeee".
Definition com2 : ObjectId := OID "ffffffffffffffffffffffff".
Definition like1 : ObjectId := OID "000000000000000000000001".
Definition like2 : ObjectId := OID "000000000000000000000002".

Definition sample_store : Store :=
  mkStore
    [ mkUser alice "alice" "Alice A" "http://img/alice.png";
      mkUser bob "bob" "Bob B" "http://img/bob.png" ]
    [ mkVideo vid1 (Some alice) "f1" "t1" "first" "d1" 60 10 true 100;
      mkVideo vid2 (Some alice) "f2" "t2" "second" "d2" 90 5 false 200 ]
    [ mkComment com1 "nice" (Some alice) vid1 300 300;
      mkComment com2 "meh" (Some bob) vid1 400 400 ]
    [ mkLike like1 (Some com1) None bob;
      mkLike like2 (Some com1) None alice ]
    [ mkPlaylist pl1 "mixed" "one published, one not" (Some alice)
                 [vid1; vid2] 500 500;
      mkPlaylist pl2 "drafts" "nothing published" (Some bob)
                 [vid2] 600 600 ].

Definition like3 : ObjectId := OID "000000000000000000000003".

(** The sample store with one more Like, by Bob on the second comment. *)
Definition sample_store_three_likes : Store :=
  Like.set_likes
    (db_likes sample_store ++ [mkLike like3 (Some com2) None bob])
    sample_store.

(** The pagination plugin, mongoose-aggregate-paginate-v2, as the
    controller calls it.  The plugin parses the two options again:
    the limit it works with is the parsed [limit] when that is positive
    and 10 otherwise; the page is the absolute value of the parsed
    [page], and 1 when that is zero or no number. *)
Definition plugin_limit (o : PaginateOptions) : Z :=
  match parseInt_number (limit o) with
  | Num n => if 0 <? n then n else 10
  | _ => 10
  end.

Definition plugin_page (o : PaginateOptions) : Z :=
  match parseInt_number (page o) with
  | Num n => if n =? 0 then 1 else Z.abs n
  | _ => 1
  end.

(** The result of the plugin: the [limit] documents that follow the
    first [(page - 1) * limit], with the count of all documents, the
    limit and the page it worked with, and the number of pages, which is
    1 for an empty feed.  (The store takes the two counts as 64-bit
    integers and refuses larger ones; the definition is meant below
    that bound.) *)
Definition slice_paginate (l : list CommentView) (o : PaginateOptions)
  : PagedResult :=
  let total := Z.of_nat (List.length l) in
  let p := plugin_page o in
  let n := plugin_limit o in
  let pages := (total + n - 1) / n in
  mkPaged (firstn (Z.to_nat n) (skipn (Z.to_nat ((p - 1) * n)) l))
          total n p (if pages =? 0 then 1 else pages).

(** * Theorems *)

(** ** Object ids *)

Lemma ObjectId_eqb_eq (a b : ObjectId) : ObjectId_eqb a b = true <-> a = b.
Proof.
  destruct a as [x], b as [y]; unfold ObjectId_eqb; simpl.
  rewrite String.eqb_eq. split; [intros ->; reflexivity | intros [= ->]; reflexivity].
Qed.

Lemma ObjectId_eqb_refl (a : ObjectId) : ObjectId_eqb a a = true.
Proof. apply ObjectId_eqb_eq. reflexivity. Qed.

Lemma ObjectId_eqb_neq (a b : ObjectId) : ObjectId_eqb a b = false <-> a <> b.
Proof.
  split.
  - intros H E. apply ObjectId_eqb_eq in E. congruence.
  - intros H. destruct (ObjectId_eqb a b) eqn:E; [|reflexivity].
    apply ObjectId_eqb_eq in E. contradiction.
Qed.

Lemma ObjectId_eqb_sym (a b : ObjectId) : ObjectId_eqb a b = ObjectId_eqb b a.
Proof. unfold ObjectId_eqb. apply String.eqb_sym. Qed.

Lemma cast_valid (id : string) (o : ObjectId) :
  castObjectId id = Some o -> isValidObjectId id = true.
Proof.
  unfold castObjectId, isValidObjectId.
  destruct (is_hex24 id); [reflexivity|].
  destruct (is_raw12 id); [reflexivity | discriminate].
Qed.

(** ** How the model methods run *)

Lemma cast_run (id : string) (s : Store) :
  cast id s = match castObjectId id with
              | Some o => (Ok o, s)
              | None => (Err (CastError id), s)
              end.
Proof. unfold cast. destruct (castObjectId id); reflexivity. Qed.

Lemma Playlist_findById_run (id : string) (s : Store) :
  Playlist.findById id s =
  match castObjectId id with
  | Some o => (Ok (find_by_id p_id o (db_playlists s)), s)
  | None => (Err (CastError id), s)
  end.
Proof.
  unfold Playlist.findById, bind. rewrite cast_run.
  destruct (castObjectId id); reflexivity.
Qed.

Lemma Video_findById_run (id : string) (s : Store) :
  Video.findById id s =
  match castObjectId id with
  | Some o => (Ok (find_by_id v_id o (db_videos s)), s)
  | None => (Err (CastError id), s)
  end.
Proof.
  unfold Video.findById, bind. rewrite cast_run.
  destruct (castObjectId id); reflexivity.
Qed.

Lemma Comment_findById_run (id : string) (s : Store) :
  Comment.findById id s =
  match castObjectId id with
  | Some o => (Ok (find_by_id c_id o (db_comments s)), s)
  | None => (Err (CastError id), s)
  end.
Proof.
  unfold Comment.findById, bind. rewrite cast_run.
  destruct (castObjectId id); reflexivity.
Qed.

(** A successful [findById] tells how its argument was cast. *)
Lemma Playlist_findById_found (id : string) (s : Store) (p : PlaylistDoc) :
  outcome (Playlist.findById id s) = Ok (Some p) ->
  exists o, castObjectId id = Some o
            /\ find_by_id p_id o (db_playlists s) = Some p.
Proof.
  rewrite Playlist_findById_run. destruct (castObjectId id) as [o|]; simpl.
  - intros [= H]. exists o. split; [reflexivity | exact H].
  - discriminate.
Qed.

Lemma Video_findById_found (id : string) (s : Store) (v : VideoDoc) :
  outcome (Video.findById id s) = Ok (Some v) ->
  exists o, castObjectId id = Some o
            /\ find_by_id v_id o (db_videos s) = Some v.
Proof.
  rewrite Video_findById_run. destruct (castObjectId id) as [o|]; simpl.
  - intros [= H]. exists o. split; [reflexivity | exact H].
  - discriminate.
Qed.

Section CollectionFacts.
Context {D : Type} (id_of : D -> ObjectId).

Lemma find_by_id_id (o : ObjectId) (l : list D) (d : D) :
  find_by_id id_of o l = Some d -> id_of d = o.
Proof.
  unfold find_by_id. intros H. apply find_some in H.
  apply ObjectId_eqb_eq. apply H.
Qed.

Lemma find_by_id_In (o : ObjectId) (l : list D) (d : D) :
  find_by_id id_of o l = Some d -> In d l.
Proof. unfold find_by_id. intros H. apply find_some in H. apply H. Qed.

(** After an update that keeps the id, the lookup finds the updated
    document. *)
Lemma find_update_by_id (o : ObjectId) (f : D -> D) (l : list D) (d : D) :
  (forall x, id_of (f x) = id_of x) ->
  find_by_id id_of o l = Some d ->
  find_by_id id_of o (update_by_id id_of o f l) = Some (f d).
Proof.
  intros Hid. unfold find_by_id. induction l as [|x r IH]; simpl; [discriminate|].
  destruct (ObjectId_eqb (id_of x) o) eqn:E; simpl.
  - intros [= ->]. rewrite Hid, E. reflexivity.
  - rewrite E. exact IH.
Qed.

Lemma update_by_id_absent (o : ObjectId) (f : D -> D) (l : list D) :
  find_by_id id_of o l = None -> update_by_id id_of o f l = l.
Proof.
  unfold find_by_id. induction l as [|x r IH]; simpl; [reflexivity|].
  destruct (ObjectId_eqb (id_of x) o); [discriminate|].
  intros H. rewrite IH by exact H. reflexivity.
Qed.

(** With unique ids, matching on the id selects the document that the
    lookup finds and nothing else. *)
Lemma filter_id_unique (o : ObjectId) (l : list D) (d : D) :
  NoDup (map id_of l) ->
  find_by_id id_of o l = Some d ->
  filter (fun x => ObjectId_eqb (id_of x) o) l = [d].
Proof.
  unfold find_by_id. induction l as [|x r IH]; simpl; [discriminate|].
  intros Hnd. inversion Hnd as [|? ? Hnotin Hnd']; subst.
  destruct (ObjectId_eqb (id_of x) o) eqn:E.
  - intros [= ->]. f_equal.
    apply ObjectId_eqb_eq in E. subst o.
    clear IH Hnd Hnd'. induction r as [|y r IH]; simpl; [reflexivity|].
    destruct (ObjectId_eqb (id_of y) (id_of d)) eqn:E'.
    + apply ObjectId_eqb_eq in E'. exfalso. apply Hnotin. simpl. left. exact E'.
    + apply IH. intros Hin. apply Hnotin. simpl. right. exact Hin.
  - intros H. apply IH; assumption.
Qed.
End CollectionFacts.

(** ** The playlist detail pipeline *)

Lemma Video_field_isPublished (v : VideoDoc) :
  Bson_eqb (orNull (Video_field "isPublished" v)) (BBool true)
  = v_isPublished v.
Proof. simpl. destruct (v_isPublished v); reflexivity. Qed.

Lemma existsb_BObjectId (x : ObjectId) (l : list ObjectId) :
  existsb (Bson_eqb (BObjectId x)) (map BObjectId l) = true <-> In x l.
Proof.
  rewrite existsb_exists. split.
  - intros [b [Hin Heq]]. apply in_map_iff in Hin. destruct Hin as [y [<- Hy]].
    simpl in Heq. apply ObjectId_eqb_eq in Heq. subst. exact Hy.
  - intros Hin. exists (BObjectId x). split.
    + apply in_map. exact Hin.
    + simpl. apply ObjectId_eqb_refl.
Qed.

(** The videos that the join attaches to a playlist are the stored
    videos whose id is a member of the playlist. *)
Lemma joined_video_iff (s : Store) (p : PlaylistDoc) (v : VideoDoc) :
  In v (snd (pd_lookup_videos s p))
  <-> In v (db_videos s) /\ In (v_id v) (p_videos p).
Proof.
  unfold pd_lookup_videos, lookup_array. simpl snd.
  rewrite filter_In. simpl Video_field. simpl orNull.
  rewrite existsb_BObjectId. reflexivity.
Qed.

(** With unique ids the pipeline yields the one document of the playlist
    when some joined video is published, and nothing otherwise. *)
Lemma playlistVideosAggregate_found (s : Store) (o : ObjectId)
    (p : PlaylistDoc) :
  unique_playlist_ids s ->
  find_by_id p_id o (db_playlists s) = Some p ->
  playlistVideosAggregate s o =
  if pd_match_published (pd_lookup_videos s p)
  then [pd_addFields_project (pd_lookup_owner s (pd_lookup_videos s p))]
  else [].
Proof.
  intros Hu Hf. unfold playlistVideosAggregate, pd_match_id.
  rewrite (filter_id_unique p_id o _ p Hu Hf). simpl.
  destruct (pd_match_published (pd_lookup_videos s p)); reflexivity.
Qed.

Lemma getPlaylistById_found (playlistId : string) (s : Store)
    (o : ObjectId) (p : PlaylistDoc) :
  castObjectId playlistId = Some o ->
  find_by_id p_id o (db_playlists s) = Some p ->
  getPlaylistById playlistId s =
  (Ok (mkApiResponse 200 (hd_error (playlistVideosAggregate s o))
                     "playlist fetched successfully"), s).
Proof.
  intros Hc Hf. unfold getPlaylistById.
  rewrite (cast_valid _ _ Hc). simpl. unfold bind.
  rewrite Playlist_findById_run, Hc, Hf, cast_run, Hc. reflexivity.
Qed.

(** C9. An existing playlist none of whose member videos is published
    (an empty video list included): [getPlaylistById] succeeds with
    status 200, and the detail payload of the response is absent. *)
Theorem getPlaylistById_no_published_video :
  forall (s : Store) (playlistId : string) (p : PlaylistDoc),
    unique_playlist_ids s ->
    outcome (Playlist.findById playlistId s) = Ok (Some p) ->
    (forall v, In v (db_videos s) -> In (v_id v) (p_videos p) ->
               v_isPublished v = false) ->
    getPlaylistById playlistId s =
    (Ok (mkApiResponse 200 None "playlist fetched successfully"), s).
Proof.
  intros s playlistId p Hu Hfound Hnone.
  destruct (Playlist_findById_found _ _ _ Hfound) as [o [Hc Hf]].
  rewrite (getPlaylistById_found _ _ _ _ Hc Hf).
  rewrite (playlistVideosAggregate_found _ _ _ Hu Hf).
  assert (Hno : pd_match_published (pd_lookup_videos s p) = false).
  { unfold pd_match_published.
    destruct (existsb _ (snd (pd_lookup_videos s p))) eqn:E; [|reflexivity].
    apply existsb_exists in E. destruct E as [v [Hin Hpub]].
    rewrite Video_field_isPublished in Hpub.
    apply joined_video_iff in Hin. destruct Hin as [Hv Hm].
    rewrite (Hnone v Hv Hm) in Hpub. discriminate. }
  rewrite Hno. reflexivity.
Qed.

Lemma sample_store_unique : unique_playlist_ids sample_store.
Proof.
  unfold unique_playlist_ids. simpl.
  repeat constructor; simpl; intuition discriminate.
Qed.

Lemma getPlaylistById_no_published_video_witness :
  getPlaylistById "dddddddddddddddddddddddd" sample_store =
  (Ok (mkApiResponse 200 None "playlist fetched successfully"), sample_store).
Proof.
  apply (getPlaylistById_no_published_video sample_store
           "dddddddddddddddddddddddd"
           (mkPlaylist pl2 "drafts" "nothing published" (Some bob)
                       [vid2] 600 600)).
  - exact sample_store_unique.
  - reflexivity.
  - simpl. intros v [<- | [<- | []]] [E | []]; [discriminate E | reflexivity].
Defined.

(** C1. On the spec's own scenario, a playlist with one published and
    one unpublished video, [getPlaylistById] returns both videos, counts
    two and sums the views of both: the [$match] on
    ["videos.isPublished"] selects documents and leaves the [videos]
    array of a selected document whole. *)
Theorem getPlaylistById_keeps_unpublished_videos :
  exists d : PlaylistDetail,
    outcome (getPlaylistById "cccccccccccccccccccccccc" sample_store)
    = Ok (mkApiResponse 200 (Some d) "playlist fetched successfully")
    /\ map v_id (published_members sample_store
                   (mkPlaylist pl1 "mixed" "one published, one not"
                               (Some alice) [vid1; vid2] 500 500))
       = [vid1]
    /\ map vv_id (pd_videos d) = [vid1; vid2]
    /\ pd_totalVideos d = 2
    /\ pd_totalViews d = 15.
Proof.
  eexists. repeat split; try reflexivity.
Qed.

(** The same holds of every store: the detail that the pipeline
    produces lists every joined video, published or not. *)
Lemma detail_lists_all_joined (s : Store) (o : ObjectId) (p : PlaylistDoc) :
  unique_playlist_ids s ->
  find_by_id p_id o (db_playlists s) = Some p ->
  forall d, hd_error (playlistVideosAggregate s o) = Some d ->
    pd_videos d = map project_video (snd (pd_lookup_videos s p))
    /\ pd_totalVideos d = Z.of_nat (List.length (snd (pd_lookup_videos s p)))
    /\ pd_totalViews d = sum_views (snd (pd_lookup_videos s p)).
Proof.
  intros Hu Hf d. rewrite (playlistVideosAggregate_found _ _ _ Hu Hf).
  destruct (pd_match_published (pd_lookup_videos s p)); simpl; [|discriminate].
  intros [= <-]. repeat split; reflexivity.
Qed.

(** ** Deleting a comment *)

(** [Like.updateMany] as [deleteComment] calls it, with one object,
    rewrites every Like and removes none. *)
Lemma Like_updateMany_one_object (f : Like.Fields) (s : Store) :
  Like.updateMany f None s
  = (Ok tt, Like.set_likes (map (Like.assign f) (db_likes s)) s).
Proof. reflexivity. Qed.

(** After any run of [deleteComment] the likes collection has the Like
    records it had, by id and in order: none is deleted. *)
Lemma deleteComment_keeps_like_ids (commentId : string)
    (user : option ObjectId) (s : Store) :
  map l_id (db_likes (store_after (deleteComment commentId user s)))
  = map l_id (db_likes s).
Proof.
  unfold deleteComment, bind, store_after.
  rewrite Comment_findById_run.
  destruct (castObjectId commentId) as [o|] eqn:Hc; [|reflexivity].
  destruct (find_by_id c_id o (db_comments s)) as [c|]; [|reflexivity].
  destruct (c_owner c) as [w|]; simpl; [|reflexivity].
  match goal with |- context [if ?b then _ else _] => destruct b end;
    [reflexivity|].
  unfold Comment.findByIdAndDelete, bind. rewrite cast_run, Hc. simpl.
  rewrite cast_run, Hc. simpl. rewrite map_map. reflexivity.
Qed.

(** C2. Alice deletes her comment, which Bob and she have liked, in a
    store where Bob has also liked another comment: the call succeeds
    and the comment is gone, and no Like is deleted.  The cascade is a
    [Like.updateMany] with one object, which mongoose takes as an update
    of the whole collection: the two Like records of the comment are
    still there, and all three Like records of the store now reference
    the deleted comment with Alice as [likedBy]. *)
Theorem deleteComment_deletes_no_like :
  let s := sample_store_three_likes in
  let r := deleteComment "eeeeeeeeeeeeeeeeeeeeeeee" (Some alice) s in
  outcome r = Ok (mkApiResponse 200 "eeeeeeeeeeeeeeeeeeeeeeee"
                                "Comment deleted successfully")
  /\ find_by_id c_id com1 (db_comments (store_after r)) = None
  /\ likes_referencing s com1
     = [ mkLike like1 (Some com1) None bob;
         mkLike like2 (Some com1) None alice ]
  /\ db_likes (store_after r)
     = [ mkLike like1 (Some com1) None alice;
         mkLike like2 (Some com1) None alice;
         mkLike like3 (Some com1) None alice ].
Proof. repeat split; reflexivity. Qed.

(** ** The id check of the membership handlers *)

(** The guard [!(isValidObjectId(playlistId) || isValidObjectId(videoId))]
    lets a call through as soon as one of the two ids is well formed. *)
Lemma membership_guard (playlistId videoId : string) :
  negb (isValidObjectId playlistId || isValidObjectId videoId) = true
  <-> isValidObjectId playlistId = false /\ isValidObjectId videoId = false.
Proof.
  rewrite negb_true_iff, orb_false_iff. reflexivity.
Qed.

(** C3. With a well-formed playlist id and the malformed video id
    ["xyz"], neither handler raises the validation failure: the guard
    lets the call through, the playlist is looked up, and the lookup of
    the video fails in the cast of its id.  The same happens with the
    malformed id in the place of the playlist. *)
Theorem membership_one_malformed_id_passes_guard :
  isValidObjectId "cccccccccccccccccccccccc" = true
  /\ isValidObjectId "xyz" = false
  /\ outcome (addVideoToPlaylist "cccccccccccccccccccccccc" "xyz"
                (Some alice) 700 sample_store)
     = Err (CastError "xyz")
  /\ outcome (removeVideoFromPlaylist "cccccccccccccccccccccccc" "xyz"
                (Some alice) 700 sample_store)
     = Err (CastError "xyz")
  /\ outcome (addVideoToPlaylist "xyz" "111111111111111111111111"
                (Some alice) 700 sample_store)
     = Err (CastError "xyz")
  /\ outcome (removeVideoFromPlaylist "xyz" "111111111111111111111111"
                (Some alice) 700 sample_store)
     = Err (CastError "xyz").
Proof. repeat split; reflexivity. Qed.

(** ** The owner join of the comment feed *)

(** No user document has a field named ["_id,"]. *)
Lemma User_field_typo (u : UserDoc) : User_field "_id," u = None.
Proof. reflexivity. Qed.

(** The owner join of a comment that has an owner finds no user,
    whatever the users collection holds. *)
Lemma cm_lookup_owner_empty (s : Store) (c : CommentDoc) (w : ObjectId) :
  c_owner c = Some w -> cj_owner (cm_lookup s c) = [].
Proof.
  intros Hw. unfold cm_lookup, lookup. simpl cj_owner. rewrite Hw. simpl.
  induction (db_users s) as [|u r IH]; simpl; [reflexivity | exact IH].
Qed.

(** C4. The feed of the first sample video: both comments are returned,
    each has an owner who is a stored user, and neither item carries an
    owner object.  The join compares the comment's owner with the field
    ["_id,"] of the users, a field that no user has. *)
Theorem getVideoComments_owner_not_populated :
  exists r : PagedResult,
    outcome (getVideoComments slice_paginate "111111111111111111111111"
               None None (Some alice) sample_store)
    = Ok (mkApiResponse 200 r "Comments fetched successfully")
    /\ map cv_id (docs r) = [com2; com1]
    /\ map c_owner (db_comments sample_store) = [Some alice; Some bob]
    /\ map u_id (db_users sample_store) = [alice; bob]
    /\ map cv_owner (docs r) = [None; None].
Proof.
  eexists. repeat split; reflexivity.
Qed.

(** ** Pagination parameters *)

(** The options of a call: defaults for what is missing, [parseInt] of
    what is supplied. *)
Lemma paginate_options_spec (q_page q_limit : option string) :
  paginate_options q_page q_limit
  = mkOptions
      match q_page with None => Num 1 | Some t => parseInt10 t end
      match q_limit with None => Num 10 | Some t => parseInt10 t end.
Proof. destruct q_page, q_limit; reflexivity. Qed.

(** The handler passes exactly these options to the paginator. *)
Lemma getVideoComments_found
    (paginate : list CommentView -> PaginateOptions -> PagedResult)
    (videoId : string) (q_page q_limit : option string)
    (user : option ObjectId) (s : Store) (o : ObjectId) (v : VideoDoc) :
  castObjectId videoId = Some o ->
  find_by_id v_id o (db_videos s) = Some v ->
  getVideoComments paginate videoId q_page q_limit user s =
  (Ok (mkApiResponse 200
         (paginate (commentAggregate s o user)
                   (paginate_options q_page q_limit))
         "Comments fetched successfully"), s).
Proof.
  intros Hc Hf. unfold getVideoComments, bind.
  rewrite Video_findById_run, Hc, Hf, cast_run, Hc. reflexivity.
Qed.

Lemma getVideoComments_result
    (paginate : list CommentView -> PaginateOptions -> PagedResult)
    (videoId : string) (q_page q_limit : option string)
    (user : option ObjectId) (s : Store) (r : ApiResponse PagedResult string) :
  outcome (getVideoComments paginate videoId q_page q_limit user s) = Ok r ->
  exists o, castObjectId videoId = Some o
    /\ data r = paginate (commentAggregate s o user)
                         (paginate_options q_page q_limit).
Proof.
  unfold getVideoComments, bind. rewrite Video_findById_run.
  destruct (castObjectId videoId) as [o|] eqn:Hc; [|discriminate].
  destruct (find_by_id v_id o (db_videos s)); [|discriminate].
  rewrite cast_run, Hc. simpl. intros [= <-]. exists o. split; reflexivity.
Qed.

(** What the plugin does with numbers that are not positive. *)















(** ** Authorization of the membership handlers *)

(** With an owner on the playlist whose text is not empty, the left
    operand of [&&] is truthy and the test compares the owner of the
    video with the acting user. *)
Lemma not_owner_iff (p : PlaylistDoc) (v : VideoDoc) (user : option ObjectId)
    (po vo : ObjectId) :
  p_owner p = Some po -> toString po <> "" -> v_owner v = Some vo ->
  (not_owner p v user = true <-> user <> Some vo).
Proof.
  intros Hp Hne Hv. unfold not_owner. rewrite Hp, Hv. simpl.
  assert (E : (toString po =? "")%string = false).
  { apply String.eqb_neq. exact Hne. }
  unfold js_and. simpl. rewrite E. simpl.
  destruct user as [u|]; simpl.
  - rewrite negb_true_iff. fold (ObjectId_eqb vo u).
    rewrite ObjectId_eqb_neq. split; intros H; congruence.
  - split; [discriminate | reflexivity].
Qed.

Lemma addVideoToPlaylist_checked (playlistId videoId : string)
    (user : option ObjectId) (now : Z) (s : Store)
    (o w : ObjectId) (p : PlaylistDoc) (v : VideoDoc) :
  castObjectId playlistId = Some o ->
  find_by_id p_id o (db_playlists s) = Some p ->
  castObjectId videoId = Some w ->
  find_by_id v_id w (db_videos s) = Some v ->
  addVideoToPlaylist playlistId videoId user now s =
  if not_owner p v user then
    (Err (ApiError PermissionDenied 400
            "only owner can add video to thier playlist"), s)
  else
    let upd := fun q => set_videos (addToSet w (p_videos q)) q in
    let s' := Playlist.set_playlists
                (update_by_id p_id o (Playlist.touch now upd)
                   (db_playlists s)) s in
    (Ok (mkApiResponse 200 (Playlist.touch now upd p)
           "Added video to playlist successfully"), s').
Proof.
  intros Hc Hf Hcv Hfv. unfold addVideoToPlaylist.
  rewrite (cast_valid _ _ Hc). simpl. unfold bind.
  rewrite Playlist_findById_run, Hc, Video_findById_run, Hcv, Hf, Hfv.
  destruct (not_owner p v user); [reflexivity|].
  rewrite cast_run, Hcv.
  unfold Playlist.findByIdAndUpdate, Playlist.updateOne, bind.
  rewrite cast_run, Hc. simpl.
  rewrite (find_update_by_id p_id o _ _ p); [reflexivity | reflexivity | exact Hf].
Qed.

Lemma removeVideoFromPlaylist_checked (playlistId videoId : string)
    (user : option ObjectId) (now : Z) (s : Store)
    (o w : ObjectId) (p : PlaylistDoc) (v : VideoDoc) :
  castObjectId playlistId = Some o ->
  find_by_id p_id o (db_playlists s) = Some p ->
  castObjectId videoId = Some w ->
  find_by_id v_id w (db_videos s) = Some v ->
  removeVideoFromPlaylist playlistId videoId user now s =
  if not_owner p v user then
    (Err (ApiError PermissionDenied 400
            "only owner can remove video to thier playlist"), s)
  else
    let upd := fun q => set_videos (pull w (p_videos q)) q in
    let s' := Playlist.set_playlists
                (update_by_id p_id o (Playlist.touch now upd)
                   (db_playlists s)) s in
    (Ok (mkApiResponse 200 (Some (Playlist.touch now upd p))
           "Removed video from playlist successfully"), s').
Proof.
  intros Hc Hf Hcv Hfv. unfold removeVideoFromPlaylist.
  rewrite (cast_valid _ _ Hc). simpl. unfold bind.
  rewrite Playlist_findById_run, Hc, Video_findById_run, Hcv, Hf, Hfv.
  destruct (not_owner p v user); [reflexivity|].
  rewrite cast_run, Hcv.
  unfold Playlist.findByIdAndUpdate_doc, Playlist.updateOne, bind. simpl.
  rewrite (find_by_id_id p_id o _ p Hf).
  rewrite (find_update_by_id p_id o _ _ p); [reflexivity | reflexivity | exact Hf].
Qed.

(** C5. When the playlist and the video exist and the playlist has an
    owner with a non-empty id, each membership handler raises
    PermissionDenied exactly when the acting user is not the owner of
    the video; the owner of the playlist does not enter the condition. *)
Theorem membership_authorization_is_video_owner :
  forall (s : Store) (playlistId videoId : string) (user : option ObjectId)
         (now : Z) (p : PlaylistDoc) (v : VideoDoc) (po vo : ObjectId),
    outcome (Playlist.findById playlistId s) = Ok (Some p) ->
    outcome (Video.findById videoId s) = Ok (Some v) ->
    p_owner p = Some po -> toString po <> "" ->
    v_owner v = Some vo -> toString vo <> "" ->
    ((exists st m,
        outcome (addVideoToPlaylist playlistId videoId user now s)
        = Err (ApiError PermissionDenied st m))
     <-> user <> Some vo)
    /\ ((exists st m,
           outcome (removeVideoFromPlaylist playlistId videoId user now s)
           = Err (ApiError PermissionDenied st m))
        <-> user <> Some vo).
Proof.
  intros s playlistId videoId user now p v po vo Hp Hv Hpo Hne Hvo _.
  destruct (Playlist_findById_found _ _ _ Hp) as [o [Hc Hf]].
  destruct (Video_findById_found _ _ _ Hv) as [w [Hcv Hfv]].
  pose proof (not_owner_iff p v user po vo Hpo Hne Hvo) as Hiff.
  rewrite (addVideoToPlaylist_checked _ _ user now s o w p v Hc Hf Hcv Hfv).
  rewrite (removeVideoFromPlaylist_checked _ _ user now s o w p v Hc Hf Hcv Hfv).
  destruct (not_owner p v user) eqn:E; simpl; split; split.
  - intros _. apply Hiff. reflexivity.
  - intros _. eauto.
  - intros _. apply Hiff. reflexivity.
  - intros _. eauto.
  - intros [st [m H]]. discriminate H.
  - intros H. apply Hiff in H. discriminate H.
  - intros [st [m H]]. discriminate H.
  - intros H. apply Hiff in H. discriminate H.
Qed.

Lemma membership_authorization_is_video_owner_witness :
  ((exists st m,
      outcome (addVideoToPlaylist "dddddddddddddddddddddddd"
                 "111111111111111111111111" (Some bob) 700 sample_store)
      = Err (ApiError PermissionDenied st m))
   <-> Some bob <> Some alice)
  /\ ((exists st m,
         outcome (removeVideoFromPlaylist "dddddddddddddddddddddddd"
                    "111111111111111111111111" (Some bob) 700 sample_store)
         = Err (ApiError PermissionDenied st m))
      <-> Some bob <> Some alice).
Proof.
  apply (membership_authorization_is_video_owner sample_store
           "dddddddddddddddddddddddd" "111111111111111111111111"
           (Some bob) 700
           (mkPlaylist pl2 "drafts" "nothing published" (Some bob)
                       [vid2] 600 600)
           (mkVideo vid1 (Some alice) "f1" "t1" "first" "d1" 60 10 true 100)
           bob alice);
    try reflexivity; simpl; discriminate.
Defined.

(** ** Adding a video twice *)

Lemma existsb_ObjectId_In (x : ObjectId) (l : list ObjectId) :
  existsb (ObjectId_eqb x) l = true <-> In x l.
Proof.
  rewrite existsb_exists. split.
  - intros [y [Hin E]]. apply ObjectId_eqb_eq in E. subst. exact Hin.
  - intros Hin. exists x. split; [exact Hin | apply ObjectId_eqb_refl].
Qed.

Lemma addToSet_In (x : ObjectId) (l : list ObjectId) : In x (addToSet x l).
Proof.
  unfold addToSet. destruct (existsb (ObjectId_eqb x) l) eqn:E.
  - apply existsb_ObjectId_In. exact E.
  - apply in_or_app. right. left. reflexivity.
Qed.

Lemma addToSet_idempotent (x : ObjectId) (l : list ObjectId) :
  addToSet x (addToSet x l) = addToSet x l.
Proof.
  unfold addToSet at 1.
  destruct (existsb (ObjectId_eqb x) (addToSet x l)) eqn:E; [reflexivity|].
  pose proof (addToSet_In x l) as Hin.
  apply existsb_ObjectId_In in Hin. congruence.
Qed.

Lemma addToSet_NoDup (x : ObjectId) (l : list ObjectId) :
  NoDup l -> NoDup (addToSet x l).
Proof.
  intros Hnd. unfold addToSet.
  destruct (existsb (ObjectId_eqb x) l) eqn:E; [exact Hnd|].
  apply NoDup_app; [exact Hnd | repeat constructor; simpl; tauto |].
  intros a Ha [<- | []].
  apply existsb_ObjectId_In in Ha. congruence.
Qed.

Lemma addToSet_count (x : ObjectId) (l : list ObjectId) :
  NoDup l -> count_occ ObjectId_eq_dec (addToSet x l) x = 1%nat.
Proof.
  intros Hnd.
  pose proof (addToSet_NoDup x l Hnd) as Hnd'.
  pose proof (addToSet_In x l) as Hin.
  rewrite (NoDup_count_occ ObjectId_eq_dec) in Hnd'.
  rewrite (count_occ_In ObjectId_eq_dec) in Hin.
  specialize (Hnd' x). lia.
Qed.

(** An update that keeps the video list of the document it rewrites
    keeps the video lists of the whole collection. *)
Lemma update_by_id_videos_fixed (o : ObjectId) (f : PlaylistDoc -> PlaylistDoc)
    (l : list PlaylistDoc) (q : PlaylistDoc) :
  find_by_id p_id o l = Some q ->
  p_videos (f q) = p_videos q ->
  map p_videos (update_by_id p_id o f l) = map p_videos l.
Proof.
  unfold find_by_id. induction l as [|x r IH]; simpl; [reflexivity|].
  destruct (ObjectId_eqb (p_id x) o); simpl.
  - intros [= ->] E. rewrite E. reflexivity.
  - intros Hq E. rewrite (IH Hq E). reflexivity.
Qed.

(** What a successful [addVideoToPlaylist] has established. *)
Lemma addVideoToPlaylist_ok_inv (playlistId videoId : string)
    (user : option ObjectId) (now : Z) (s s1 : Store)
    (r1 : ApiResponse PlaylistDoc string) :
  addVideoToPlaylist playlistId videoId user now s = (Ok r1, s1) ->
  exists o w p v,
    castObjectId playlistId = Some o
    /\ find_by_id p_id o (db_playlists s) = Some p
    /\ castObjectId videoId = Some w
    /\ find_by_id v_id w (db_videos s) = Some v
    /\ not_owner p v user = false.
Proof.
  unfold addVideoToPlaylist.
  destruct (negb (isValidObjectId playlistId || isValidObjectId videoId));
    [discriminate|].
  unfold bind. rewrite Playlist_findById_run.
  destruct (castObjectId playlistId) as [o|]; [|discriminate].
  rewrite Video_findById_run.
  destruct (castObjectId videoId) as [w|]; [|discriminate].
  destruct (find_by_id p_id o (db_playlists s)) as [p|] eqn:Hf; [|discriminate].
  destruct (find_by_id v_id w (db_videos s)) as [v|] eqn:Hfv; [|discriminate].
  destruct (not_owner p v user) eqn:E; [discriminate|].
  intros _. exists o, w, p, v. repeat split; reflexivity || assumption.
Qed.

(** C8. When [addVideoToPlaylist] has succeeded on a store whose
    playlists obey the no-duplicate invariant, the same call on the
    resulting store succeeds again; the playlist it returns has the same
    video list as the one returned first, and the video occurs in it
    exactly once. *)
Theorem addVideoToPlaylist_twice :
  forall (s s1 : Store) (playlistId videoId : string)
         (user : option ObjectId) (now now' : Z)
         (r1 : ApiResponse PlaylistDoc string),
    playlists_are_sets s ->
    addVideoToPlaylist playlistId videoId user now s = (Ok r1, s1) ->
    exists r2 s2 w,
      addVideoToPlaylist playlistId videoId user now' s1 = (Ok r2, s2)
      /\ castObjectId videoId = Some w
      /\ p_videos (data r2) = p_videos (data r1)
      /\ count_occ ObjectId_eq_dec (p_videos (data r2)) w = 1%nat
      /\ map p_videos (db_playlists s2) = map p_videos (db_playlists s1).
Proof.
  intros s s1 playlistId videoId user now now' r1 Hset H1.
  destruct (addVideoToPlaylist_ok_inv _ _ _ _ _ _ _ H1)
    as [o [w [p [v [Hc [Hf [Hcv [Hfv Hown]]]]]]]].
  rewrite (addVideoToPlaylist_checked _ _ user now s o w p v Hc Hf Hcv Hfv),
    Hown in H1.
  simpl in H1. injection H1 as Hr1 Hs1.
  set (upd := fun q => set_videos (addToSet w (p_videos q)) q) in *.
  assert (Hf1 : find_by_id p_id o (db_playlists s1)
                = Some (Playlist.touch now upd p)).
  { subst s1. simpl.
    apply (find_update_by_id p_id o); [reflexivity | exact Hf]. }
  assert (Hfv1 : find_by_id v_id w (db_videos s1) = Some v).
  { subst s1. exact Hfv. }
  assert (Hown1 : not_owner (Playlist.touch now upd p) v user = false).
  { exact Hown. }
  rewrite (addVideoToPlaylist_checked _ _ user now' s1 o w _ v Hc Hf1 Hcv Hfv1),
    Hown1.
  do 3 eexists. split; [reflexivity|].
  split; [exact Hcv|].
  assert (Hnd : NoDup (p_videos p)).
  { unfold playlists_are_sets in Hset. rewrite Forall_forall in Hset.
    apply Hset. exact (find_by_id_In p_id o _ p Hf). }
  subst r1. simpl. fold upd. split; [|split].
  - apply addToSet_idempotent.
  - rewrite addToSet_idempotent. apply addToSet_count. exact Hnd.
  - rewrite (update_by_id_videos_fixed o _ _ _ Hf1); [reflexivity|].
    simpl. fold upd. apply addToSet_idempotent.
Qed.

Lemma sample_store_sets : playlists_are_sets sample_store.
Proof.
  unfold playlists_are_sets. simpl.
  repeat constructor; simpl; intuition discriminate.
Qed.

Lemma addVideoToPlaylist_twice_witness :
  exists r2 s2 w,
    addVideoToPlaylist "dddddddddddddddddddddddd" "111111111111111111111111"
      (Some alice) 800
      (store_after
         (addVideoToPlaylist "dddddddddddddddddddddddd"
            "111111111111111111111111" (Some alice) 700 sample_store))
    = (Ok r2, s2)
    /\ castObjectId "111111111111111111111111" = Some w
    /\ p_videos (data r2) = [vid2; vid1]
    /\ count_occ ObjectId_eq_dec (p_videos (data r2)) w = 1%nat
    /\ map p_videos (db_playlists s2) = [[vid1; vid2]; [vid2; vid1]].
Proof.
  exact (addVideoToPlaylist_twice sample_store
           (store_after
              (addVideoToPlaylist "dddddddddddddddddddddddd"
                 "111111111111111111111111" (Some alice) 700 sample_store))
           "dddddddddddddddddddddddd" "111111111111111111111111"
           (Some alice) 700 800
           (mkApiResponse 200
              (mkPlaylist pl2 "drafts" "nothing published" (Some bob)
                          [vid2; vid1] 600 700)
              "Added video to playlist successfully")
           sample_store_sets eq_refl).
Defined.

(** The invariant is kept by the handler, so it holds of every store
    that the handlers have built. *)
Lemma addVideoToPlaylist_keeps_sets (playlistId videoId : string)
    (user : option ObjectId) (now : Z) (s : Store) :
  playlists_are_sets s ->
  playlists_are_sets
    (store_after (addVideoToPlaylist playlistId videoId user now s)).
Proof.
  intros Hset. unfold addVideoToPlaylist, store_after.
  destruct (negb (isValidObjectId playlistId || isValidObjectId videoId));
    [exact Hset|].
  unfold bind. rewrite Playlist_findById_run.
  destruct (castObjectId playlistId) as [o|] eqn:Hc; [|exact Hset].
  rewrite Video_findById_run.
  destruct (castObjectId videoId) as [w|] eqn:Hcv; [|exact Hset].
  destruct (find_by_id p_id o (db_playlists s)) as [p|]; [|exact Hset].
  destruct (find_by_id v_id w (db_videos s)) as [v|]; [|exact Hset].
  destruct (not_owner p v user); [exact Hset|].
  rewrite cast_run, Hcv.
  unfold Playlist.findByIdAndUpdate, Playlist.updateOne, bind.
  rewrite cast_run, Hc. simpl.
  assert (Hupd : playlists_are_sets
            (Playlist.set_playlists
               (update_by_id p_id o
                  (Playlist.touch now
                     (fun q => set_videos (addToSet w (p_videos q)) q))
                  (db_playlists s)) s)).
  { unfold playlists_are_sets in *. simpl.
    induction (db_playlists s) as [|x r IH]; simpl; [constructor|].
    inversion Hset as [|? ? Hx Hr]; subst.
    destruct (ObjectId_eqb (p_id x) o).
    - constructor; [simpl; apply addToSet_NoDup; exact Hx | exact Hr].
    - constructor; [exact Hx | apply IH; exact Hr]. }
  match goal with
  | |- context [match ?x with _ => _ end] => destruct x
  end; exact Hupd.
Qed.

(** ** Likes in the comment feed *)

Lemma insert_desc_In (x y : CommentJoined) (l : list CommentJoined) :
  In y (insert_desc x l) <-> y = x \/ In y l.
Proof.
  induction l as [|z r IH]; simpl.
  - intuition congruence.
  - destruct (c_createdAt (cj_doc z) <=? c_createdAt (cj_doc x)); simpl.
    + intuition congruence.
    + rewrite IH. intuition congruence.
Qed.

(** Sorting neither drops nor invents a comment. *)
Lemma sort_createdAt_desc_In (y : CommentJoined) (l : list CommentJoined) :
  In y (sort_createdAt_desc l) <-> In y l.
Proof.
  unfold sort_createdAt_desc. induction l as [|x r IH]; simpl; [reflexivity|].
  rewrite insert_desc_In, IH. intuition congruence.
Qed.

(** The likes that the join attaches to a comment are the Like records
    referencing it. *)
Lemma cm_lookup_likes (s : Store) (c : CommentDoc) :
  cj_likes (cm_lookup s c) = likes_referencing s (c_id c).
Proof.
  unfold cm_lookup, lookup, likes_referencing. simpl cj_likes.
  apply filter_ext. intros l. unfold Like_field. simpl.
  destruct (l_comment l) as [c'|]; simpl; [apply ObjectId_eqb_sym | reflexivity].
Qed.

Lemma in_likedBy_iff (viewer : option ObjectId) (likes : list LikeDoc) :
  in_likedBy viewer likes = true
  <-> exists l, In l likes /\ viewer = Some (l_likedBy l).
Proof.
  unfold in_likedBy. rewrite existsb_exists. split.
  - intros [b [Hin E]]. apply in_map_iff in Hin.
    destruct Hin as [l [<- Hl]]. simpl in E.
    destruct viewer as [u|]; simpl in E; [|discriminate].
    apply ObjectId_eqb_eq in E. subst u. exists l. split; [exact Hl | reflexivity].
  - intros [l [Hl ->]]. exists (BObjectId (l_likedBy l)). split.
    + apply in_map_iff. exists l. split; [reflexivity | exact Hl].
    + simpl. apply ObjectId_eqb_refl.
Qed.

(** Every item of the pipeline is the view of a stored comment. *)
Lemma commentAggregate_In (s : Store) (v : ObjectId)
    (viewer : option ObjectId) (cv : CommentView) :
  In cv (commentAggregate s v viewer) ->
  exists c, In c (db_comments s) /\ c_video c = v
            /\ cv = cm_addFields_project viewer (cm_lookup s c).
Proof.
  unfold commentAggregate, cm_match_video. intros H.
  apply in_map_iff in H. destruct H as [j [<- Hj]].
  rewrite sort_createdAt_desc_In in Hj.
  apply in_map_iff in Hj. destruct Hj as [c [<- Hc]].
  apply filter_In in Hc. destruct Hc as [Hc Hv].
  apply ObjectId_eqb_eq in Hv.
  exists c. repeat split; assumption.
Qed.

(** C7. For every item that [getVideoComments] returns, given that the
    paginator returns items of the list it is handed: [likesCount] is
    the number of Like records referencing the comment, zero included;
    [isLiked] holds exactly when some Like record referencing the
    comment has the viewer as [likedBy]; and without a viewer [isLiked]
    is false. *)
Theorem getVideoComments_likes :
  forall (paginate : list CommentView -> PaginateOptions -> PagedResult),
    (forall l o, incl (docs (paginate l o)) l) ->
    forall (videoId : string) (q_page q_limit : option string)
           (viewer : option ObjectId) (s : Store)
           (r : ApiResponse PagedResult string) (cv : CommentView),
      outcome (getVideoComments paginate videoId q_page q_limit viewer s)
      = Ok r ->
      In cv (docs (data r)) ->
      cv_likesCount cv
      = Z.of_nat (List.length (likes_referencing s (cv_id cv)))
      /\ (cv_isLiked cv = true
          <-> exists l, In l (likes_referencing s (cv_id cv))
                        /\ viewer = Some (l_likedBy l))
      /\ (viewer = None -> cv_isLiked cv = false).
Proof.
  intros paginate Hsub videoId q_page q_limit viewer s r cv Hr Hin.
  destruct (getVideoComments_result _ _ _ _ _ _ _ Hr) as [o [_ Hd]].
  rewrite Hd in Hin. apply Hsub in Hin.
  destruct (commentAggregate_In _ _ _ _ Hin) as [c [_ [_ ->]]].
  unfold cm_addFields_project. cbn [cv_likesCount cv_isLiked cv_id].
  change (cj_doc (cm_lookup s c)) with c. rewrite cm_lookup_likes.
  split; [reflexivity|]. split.
  - rewrite <- in_likedBy_iff.
    destruct (in_likedBy viewer (likes_referencing s (c_id c)));
      split; congruence.
  - intros ->.
    destruct (in_likedBy None (likes_referencing s (c_id c))) eqn:E;
      [|reflexivity].
    apply in_likedBy_iff in E. destruct E as [l [_ E]]. discriminate E.
Qed.

Lemma slice_paginate_incl (l : list CommentView) (o : PaginateOptions) :
  incl (docs (slice_paginate l o)) l.
Proof.
  unfold slice_paginate. cbn [docs]. intros x Hx.
  rewrite <- (firstn_skipn
                (Z.to_nat ((plugin_page o - 1) * plugin_limit o)) l).
  apply in_or_app. right.
  rewrite <- (firstn_skipn (Z.to_nat (plugin_limit o))
                (skipn (Z.to_nat ((plugin_page o - 1) * plugin_limit o)) l)).
  apply in_or_app. left. exact Hx.
Qed.

Lemma getVideoComments_likes_witness :
  let cv := mkCommentView com1 "nice" 300 2 None true in
  cv_likesCount cv
  = Z.of_nat (List.length (likes_referencing sample_store (cv_id cv)))
  /\ (cv_isLiked cv = true
      <-> exists l, In l (likes_referencing sample_store (cv_id cv))
                    /\ Some alice = Some (l_likedBy l))
  /\ (Some alice = None -> cv_isLiked cv = false).
Proof.
  intros cv.
  apply (getVideoComments_likes slice_paginate slice_paginate_incl
           "111111111111111111111111" None None (Some alice) sample_store
           (mkApiResponse 200
              (slice_paginate
                 (commentAggregate sample_store vid1 (Some alice))
                 (paginate_options None None))
              "Comments fetched successfully")
           cv).
  - reflexivity.
  - simpl. right. left. reflexivity.
Defined.

(** ** Rejected mutations write nothing *)

Ltac run_handler :=
  cbv beta iota zeta delta
    [addComment updateComment deleteComment createPlaylist updatePlaylist
     deletePlaylist addVideoToPlaylist removeVideoFromPlaylist
     bind ret throw get put cast toString_of outcome store_after fst snd
     Video.findById Comment.findById Playlist.findById
     Comment.create Comment.findByIdAndUpdate Comment.findByIdAndDelete
     Like.updateMany Playlist.create Playlist.updateOne
     Playlist.findByIdAndUpdate Playlist.findByIdAndUpdate_doc
     Playlist.findByIdAndRemove].

Ltac has_match x :=
  match x with context [match _ with _ => _ end] => idtac end.

(** Case analysis on an innermost test of the handler. *)
Ltac branch :=
  match goal with
  | |- context [match ?x with _ => _ end] =>
      tryif has_match x then fail else destruct x eqn:?
  end;
  cbv beta iota zeta.

Ltac close_leaf :=
  let He := fresh "He" in
  let Hr := fresh "Hr" in
  intros He Hr;
  first
    [ reflexivity
    | discriminate He
    | injection He as He; subst; simpl in Hr; discriminate Hr ].

Ltac rejected_unchanged := run_handler; repeat branch; close_leaf.

(** C10. Whenever one of the eight mutation handlers fails with a
    validation, not-found or permission failure, the store after the
    call is the store before it: every write of a handler comes after
    all of its checks. *)
Theorem rejected_mutation_writes_nothing :
  forall (s : Store) (e : Error),
    is_rejection e = true ->
    (forall videoId content user newId now,
        outcome (addComment videoId content user newId now s) = Err e ->
        store_after (addComment videoId content user newId now s) = s)
    /\ (forall commentId content user now,
        outcome (updateComment commentId content user now s) = Err e ->
        store_after (updateComment commentId content user now s) = s)
    /\ (forall commentId user,
        outcome (deleteComment commentId user s) = Err e ->
        store_after (deleteComment commentId user s) = s)
    /\ (forall name description user newId now,
        outcome (createPlaylist name description user newId now s) = Err e ->
        store_after (createPlaylist name description user newId now s) = s)
    /\ (forall playlistId name description user now,
        outcome (updatePlaylist playlistId name description user now s)
        = Err e ->
        store_after (updatePlaylist playlistId name description user now s)
        = s)
    /\ (forall playlistId user,
        outcome (deletePlaylist playlistId user s) = Err e ->
        store_after (deletePlaylist playlistId user s) = s)
    /\ (forall playlistId videoId user now,
        outcome (addVideoToPlaylist playlistId videoId user now s) = Err e ->
        store_after (addVideoToPlaylist playlistId videoId user now s) = s)
    /\ (forall playlistId videoId user now,
        outcome (removeVideoFromPlaylist playlistId videoId user now s)
        = Err e ->
        store_after (removeVideoFromPlaylist playlistId videoId user now s)
        = s).
Proof.
  intros s e Hrej.
  repeat split; intros; revert Hrej;
    match goal with H : outcome _ = Err e |- _ => revert H end;
    rejected_unchanged.
Qed.

Lemma rejected_mutation_writes_nothing_witness :
  store_after (addVideoToPlaylist "dddddddddddddddddddddddd"
                 "111111111111111111111111" (Some bob) 700 sample_store)
  = sample_store
  /\ store_after (createPlaylist (Some "") (Some "x") (Some alice)
                    (OID "abababababababababababab") 700 sample_store)
     = sample_store.
Proof.
  split.
  - apply (proj1 (proj2 (proj2 (proj2 (proj2 (proj2 (proj2
             (rejected_mutation_writes_nothing sample_store
                (ApiError PermissionDenied 400
                   "only owner can add video to thier playlist")
                eq_refl)))))))).
    reflexivity.
  - apply (proj1 (proj2 (proj2 (proj2
             (rejected_mutation_writes_nothing sample_store
                (ApiError ValidationError 400
                   "name and description both are required")
                eq_refl))))).
    reflexivity.
Defined.

(** * Further properties of the controllers *)

(** ** The comment feed: order and completeness *)

Lemma insert_desc_HdRel (x a : CommentJoined) (l : list CommentJoined) :
  newer_first a x -> HdRel newer_first a l ->
  HdRel newer_first a (insert_desc x l).
Proof.
  intros Hax Hal. destruct l as [|y r]; simpl.
  - constructor. exact Hax.
  - destruct (c_createdAt (cj_doc y) <=? c_createdAt (cj_doc x)).
    + constructor. exact Hax.
    + constructor. inversion Hal; assumption.
Qed.

Lemma insert_desc_Sorted (x : CommentJoined) (l : list CommentJoined) :
  Sorted newer_first l -> Sorted newer_first (insert_desc x l).
Proof.
  induction l as [|y r IH]; simpl; intros Hs.
  - repeat constructor.
  - inversion Hs as [|? ? Hr Hhd]; subst.
    destruct (c_createdAt (cj_doc y) <=? c_createdAt (cj_doc x)) eqn:E.
    + constructor; [exact Hs|]. constructor.
      unfold newer_first. apply Z.leb_le. exact E.
    + constructor; [apply IH; exact Hr|].
      apply insert_desc_HdRel; [|exact Hhd].
      unfold newer_first. apply Z.leb_gt in E. lia.
Qed.

Lemma sort_createdAt_desc_Sorted (l : list CommentJoined) :
  Sorted newer_first (sort_createdAt_desc l).
Proof.
  unfold sort_createdAt_desc. induction l as [|x r IH]; simpl.
  - constructor.
  - apply insert_desc_Sorted. exact IH.
Qed.

Lemma insert_desc_Permutation (x : CommentJoined) (l : list CommentJoined) :
  Permutation (x :: l) (insert_desc x l).
Proof.
  induction l as [|y r IH]; simpl; [reflexivity|].
  destruct (c_createdAt (cj_doc y) <=? c_createdAt (cj_doc x)); [reflexivity|].
  rewrite perm_swap. apply perm_skip. exact IH.
Qed.

Lemma sort_createdAt_desc_Permutation (l : list CommentJoined) :
  Permutation l (sort_createdAt_desc l).
Proof.
  unfold sort_createdAt_desc. induction l as [|x r IH]; simpl; [reflexivity|].
  rewrite <- insert_desc_Permutation. apply perm_skip. exact IH.
Qed.

(** X1. The feed that [getVideoComments] hands to the paginator is
    ordered by [createdAt], newest first: every item is at least as new
    as every item after it. *)
Theorem commentAggregate_newest_first :
  forall (s : Store) (v : ObjectId) (viewer : option ObjectId),
    StronglySorted (fun a b => cv_createdAt b <= cv_createdAt a)
                   (commentAggregate s v viewer).
Proof.
  intros s v viewer. unfold commentAggregate.
  pose proof (sort_createdAt_desc_Sorted
                (map (cm_lookup s) (cm_match_video v (db_comments s)))) as Hs.
  apply Sorted_StronglySorted in Hs.
  - induction Hs as [|a l Hl IH Hall]; simpl; constructor.
    + exact IH.
    + rewrite Forall_forall in *. intros cv Hcv.
      apply in_map_iff in Hcv. destruct Hcv as [j [<- Hj]].
      simpl. exact (Hall j Hj).
  - intros a b c Hab Hbc. unfold newer_first in *. lia.
Qed.

(** X2. The feed holds each comment of the video once and nothing else:
    the ids of its items are a rearrangement of the ids of the stored
    comments whose [video] is the requested one. *)
Theorem commentAggregate_complete :
  forall (s : Store) (v : ObjectId) (viewer : option ObjectId),
    Permutation
      (map c_id (filter (fun c => ObjectId_eqb (c_video c) v) (db_comments s)))
      (map cv_id (commentAggregate s v viewer)).
Proof.
  intros s v viewer. unfold commentAggregate, cm_match_video.
  rewrite map_map.
  change (fun x => cv_id (cm_addFields_project viewer x))
    with (fun x => c_id (cj_doc x)).
  rewrite <- (map_map cj_doc c_id).
  apply Permutation_map.
  rewrite <- sort_createdAt_desc_Permutation.
  rewrite map_map. simpl. rewrite map_id. reflexivity.
Qed.

(** ** Reads and malformed ids *)

Lemma getVideoComments_reads
    (paginate : list CommentView -> PaginateOptions -> PagedResult)
    (s : Store) (id : string) (q_page q_limit : option string)
    (user : option ObjectId) :
  store_after (getVideoComments paginate id q_page q_limit user s) = s.
Proof.
  unfold getVideoComments, bind, store_after. rewrite Video_findById_run.
  destruct (castObjectId id) as [o|] eqn:Hc; [|reflexivity].
  destruct (find_by_id v_id o (db_videos s)); [|reflexivity].
  rewrite cast_run, Hc. reflexivity.
Qed.

Lemma getPlaylistById_reads (s : Store) (id : string) :
  store_after (getPlaylistById id s) = s.
Proof.
  unfold getPlaylistById, store_after.
  destruct (negb (isValidObjectId id)); [reflexivity|].
  unfold bind. rewrite Playlist_findById_run.
  destruct (castObjectId id) as [o|] eqn:Hc; [|reflexivity].
  destruct (find_by_id p_id o (db_playlists s)); [|reflexivity].
  rewrite cast_run, Hc. reflexivity.
Qed.

Lemma getUserPlaylists_reads (s : Store) (id : string) :
  store_after (getUserPlaylists id s) = s.
Proof.
  unfold getUserPlaylists, store_after.
  destruct (negb (isValidObjectId id)); [reflexivity|].
  unfold bind. rewrite cast_run.
  destruct (castObjectId id); reflexivity.
Qed.

(** X3. The three read handlers never write: whatever the input and
    whatever the outcome, the store after the call is the store before
    it. *)
Theorem read_handlers_write_nothing :
  forall (paginate : list CommentView -> PaginateOptions -> PagedResult)
         (s : Store) (id : string) (q_page q_limit : option string)
         (user : option ObjectId),
    store_after (getVideoComments paginate id q_page q_limit user s) = s
    /\ store_after (getPlaylistById id s) = s
    /\ store_after (getUserPlaylists id s) = s.
Proof.
  intros. split; [apply getVideoComments_reads|].
  split; [apply getPlaylistById_reads | apply getUserPlaylists_reads].
Qed.

(** A text of 12 characters is a well-formed id: it passes the guard and
    is looked up under the id of its bytes. *)
Example getPlaylistById_twelve_characters :
  isValidObjectId "abcdefghijkl" = true
  /\ castObjectId "abcdefghijkl" = Some (OID "6162636465666768696a6b6c")
  /\ getPlaylistById "abcdefghijkl" sample_store
     = (Err (ApiError NotFound 404 "playlist not found"), sample_store).
Proof. repeat split; reflexivity. Qed.

(** X4. The handlers guarded by a test of one id reject every malformed
    id with the validation failure of status 400, before any lookup and
    with the store untouched. *)
Theorem single_id_guard_rejects_malformed :
  forall (s : Store) (id : string) (name description : option string)
         (user : option ObjectId) (now : Z),
    isValidObjectId id = false ->
    getPlaylistById id s
    = (Err (ApiError ValidationError 400 "playlistId is invalid"), s)
    /\ getUserPlaylists id s
       = (Err (ApiError ValidationError 400 "Invalid userId"), s)
    /\ deletePlaylist id user s
       = (Err (ApiError ValidationError 400
                 "playlistId or videoId is invalid"), s)
    /\ updatePlaylist id name description user now s
       = (Err (ApiError ValidationError 400
                 "playlistId or videoId is invalid"), s).
Proof.
  intros s id name description user now Hbad.
  unfold getPlaylistById, getUserPlaylists, deletePlaylist, updatePlaylist.
  rewrite Hbad. simpl. repeat split; reflexivity.
Qed.

Lemma single_id_guard_rejects_malformed_witness :
  getPlaylistById "xyz" sample_store
  = (Err (ApiError ValidationError 400 "playlistId is invalid"), sample_store)
  /\ getUserPlaylists "xyz" sample_store
     = (Err (ApiError ValidationError 400 "Invalid userId"), sample_store)
  /\ deletePlaylist "xyz" (Some alice) sample_store
     = (Err (ApiError ValidationError 400
               "playlistId or videoId is invalid"), sample_store)
  /\ updatePlaylist "xyz" (Some "n") (Some "d") (Some alice) 700 sample_store
     = (Err (ApiError ValidationError 400
               "playlistId or videoId is invalid"), sample_store).
Proof.
  apply (single_id_guard_rejects_malformed sample_store "xyz"
           (Some "n") (Some "d") (Some alice) 700).
  reflexivity.
Defined.

(** ** Comment mutations *)

Lemma Comment_findById_found (id : string) (s : Store) (c : CommentDoc) :
  outcome (Comment.findById id s) = Ok (Some c) ->
  exists o, castObjectId id = Some o
            /\ find_by_id c_id o (db_comments s) = Some c.
Proof.
  rewrite Comment_findById_run. destruct (castObjectId id) as [o|]; simpl.
  - intros [= H]. exists o. split; [reflexivity | exact H].
  - discriminate.
Qed.

(** The comparison of an owner's text with the acting user's. *)
Lemma strict_neq_ids (a b : option ObjectId) :
  strict_neq (option_map toString a) (option_map toString b) = true
  <-> a <> b.
Proof.
  destruct a as [x|], b as [y|]; simpl.
  - rewrite negb_true_iff. fold (ObjectId_eqb x y).
    rewrite ObjectId_eqb_neq. split; intros H; congruence.
  - split; [discriminate | reflexivity].
  - split; [discriminate | reflexivity].
  - split; [discriminate | congruence].
Qed.

Lemma addComment_run (videoId : string) (content : option string)
    (user : option ObjectId) (newId : ObjectId) (now : Z) (s : Store)
    (o : ObjectId) (v : VideoDoc) :
  truthy content = true ->
  castObjectId videoId = Some o ->
  find_by_id v_id o (db_videos s) = Some v ->
  let c := mkComment newId (value content) user o now now in
  addComment videoId content user newId now s
  = (Ok (mkApiResponse 201 "Comment added successfully" c),
     Comment.set_comments (db_comments s ++ [c]) s).
Proof.
  intros Ht Hc Hf c. unfold addComment. rewrite Ht. simpl. unfold bind.
  rewrite Video_findById_run, Hc, Hf.
  unfold Comment.create, bind. rewrite cast_run, Hc. reflexivity.
Qed.

(** X5. [addComment] with a non-empty content on an existing video
    answers 201 and appends exactly one comment: its content is the
    given one, its owner the acting user, its video the requested one;
    users, videos, likes and playlists are as before. *)
Theorem addComment_appends_one :
  forall (s : Store) (videoId : string) (content : option string)
         (user : option ObjectId) (newId : ObjectId) (now : Z)
         (v : VideoDoc),
    truthy content = true ->
    outcome (Video.findById videoId s) = Ok (Some v) ->
    let r := addComment videoId content user newId now s in
    exists c,
      outcome r = Ok (mkApiResponse 201 "Comment added successfully" c)
      /\ db_comments (store_after r) = (db_comments s ++ [c])%list
      /\ c_id c = newId /\ c_content c = value content
      /\ c_owner c = user /\ c_video c = v_id v
      /\ db_users (store_after r) = db_users s
      /\ db_videos (store_after r) = db_videos s
      /\ db_likes (store_after r) = db_likes s
      /\ db_playlists (store_after r) = db_playlists s.
Proof.
  intros s videoId content user newId now v Ht Hv r.
  destruct (Video_findById_found _ _ _ Hv) as [o [Hc Hf]].
  subst r. rewrite (addComment_run _ _ user newId now s o v Ht Hc Hf).
  eexists. simpl. repeat split.
  symmetry. exact (find_by_id_id v_id o _ v Hf).
Qed.

Lemma addComment_appends_one_witness :
  let r := addComment "111111111111111111111111" (Some "hello") (Some bob)
             (OID "abababababababababababab") 700 sample_store in
  exists c,
    outcome r = Ok (mkApiResponse 201 "Comment added successfully" c)
    /\ db_comments (store_after r) = (db_comments sample_store ++ [c])%list
    /\ c_id c = OID "abababababababababababab" /\ c_content c = "hello"
    /\ c_owner c = Some bob /\ c_video c = vid1
    /\ db_users (store_after r) = db_users sample_store
    /\ db_videos (store_after r) = db_videos sample_store
    /\ db_likes (store_after r) = db_likes sample_store
    /\ db_playlists (store_after r) = db_playlists sample_store.
Proof.
  exact (addComment_appends_one sample_store "111111111111111111111111"
           (Some "hello") (Some bob) (OID "abababababababababababab") 700
           (mkVideo vid1 (Some alice) "f1" "t1" "first" "d1" 60 10 true 100)
           eq_refl eq_refl).
Defined.

(** X6. A comment that has just been added shows in the feed of its
    video: when no Like references the new id, the feed built from the
    store after [addComment] has an item with that id, the given
    content, the creation time, no like and [isLiked] false. *)
Theorem addComment_then_feed :
  forall (s : Store) (videoId : string) (content : option string)
         (user viewer : option ObjectId) (newId : ObjectId) (now : Z)
         (v : VideoDoc),
    truthy content = true ->
    outcome (Video.findById videoId s) = Ok (Some v) ->
    likes_referencing s newId = [] ->
    exists cv,
      In cv (commentAggregate
               (store_after (addComment videoId content user newId now s))
               (v_id v) viewer)
      /\ cv_id cv = newId /\ cv_content cv = value content
      /\ cv_createdAt cv = now /\ cv_likesCount cv = 0
      /\ cv_isLiked cv = false.
Proof.
  intros s videoId content user viewer newId now v Ht Hv Hnl.
  destruct (Video_findById_found _ _ _ Hv) as [o [Hc Hf]].
  rewrite (addComment_run _ _ user newId now s o v Ht Hc Hf).
  rewrite (find_by_id_id v_id o _ v Hf).
  set (c := mkComment newId (value content) user o now now).
  set (s' := Comment.set_comments (db_comments s ++ [c]) s).
  exists (cm_addFields_project viewer (cm_lookup s' c)).
  split.
  - unfold commentAggregate. apply in_map.
    rewrite sort_createdAt_desc_In. apply in_map.
    unfold cm_match_video. apply filter_In. split.
    + simpl. apply in_or_app. right. left. reflexivity.
    + simpl. apply ObjectId_eqb_refl.
  - unfold cm_addFields_project. cbn [cv_id cv_content cv_createdAt
      cv_likesCount cv_isLiked].
    change (cj_doc (cm_lookup s' c)) with c.
    rewrite cm_lookup_likes.
    change (likes_referencing s' (c_id c)) with (likes_referencing s newId).
    rewrite Hnl. repeat split.
Qed.

Lemma addComment_then_feed_witness :
  exists cv,
    In cv (commentAggregate
             (store_after
                (addComment "111111111111111111111111" (Some "hello")
                   (Some bob) (OID "abababababababababababab") 700
                   sample_store))
             vid1 (Some alice))
    /\ cv_id cv = OID "abababababababababababab" /\ cv_content cv = "hello"
    /\ cv_createdAt cv = 700 /\ cv_likesCount cv = 0
    /\ cv_isLiked cv = false.
Proof.
  exact (addComment_then_feed sample_store "111111111111111111111111"
           (Some "hello") (Some bob) (Some alice)
           (OID "abababababababababababab") 700
           (mkVideo vid1 (Some alice) "f1" "t1" "first" "d1" 60 10 true 100)
           eq_refl eq_refl eq_refl).
Defined.

Section DeleteUpdateFacts.
Context {D : Type} (id_of : D -> ObjectId).

Lemma find_delete_same (o : ObjectId) (l : list D) :
  NoDup (map id_of l) -> find_by_id id_of o (delete_by_id id_of o l) = None.
Proof.
  unfold find_by_id. induction l as [|x r IH]; simpl; [reflexivity|].
  intros Hnd. inversion Hnd as [|? ? Hnotin Hnd']; subst.
  destruct (ObjectId_eqb (id_of x) o) eqn:E.
  - apply ObjectId_eqb_eq in E. subst o.
    destruct (find (fun d => ObjectId_eqb (id_of d) (id_of x)) r) as [d|] eqn:F;
      [|reflexivity].
    apply find_some in F. destruct F as [Hin Hd].
    apply ObjectId_eqb_eq in Hd. exfalso. apply Hnotin.
    rewrite <- Hd. apply in_map. exact Hin.
  - simpl. rewrite E. apply IH. exact Hnd'.
Qed.

Lemma find_delete_other (o o' : ObjectId) (l : list D) :
  o' <> o ->
  find_by_id id_of o' (delete_by_id id_of o l) = find_by_id id_of o' l.
Proof.
  intros Hne. unfold find_by_id. induction l as [|x r IH]; simpl; [reflexivity|].
  destruct (ObjectId_eqb (id_of x) o) eqn:E.
  - apply ObjectId_eqb_eq in E.
    destruct (ObjectId_eqb (id_of x) o') eqn:E'; [|reflexivity].
    apply ObjectId_eqb_eq in E'. congruence.
  - simpl. destruct (ObjectId_eqb (id_of x) o'); [reflexivity | exact IH].
Qed.

Lemma length_delete_by_id (o : ObjectId) (l : list D) (d : D) :
  find_by_id id_of o l = Some d ->
  List.length l = S (List.length (delete_by_id id_of o l)).
Proof.
  unfold find_by_id. induction l as [|x r IH]; simpl; [discriminate|].
  destruct (ObjectId_eqb (id_of x) o); [reflexivity|].
  intros H. simpl. rewrite (IH H). reflexivity.
Qed.

Lemma find_update_other (o o' : ObjectId) (f : D -> D) (l : list D) :
  (forall x, id_of (f x) = id_of x) -> o' <> o ->
  find_by_id id_of o' (update_by_id id_of o f l) = find_by_id id_of o' l.
Proof.
  intros Hid Hne. unfold find_by_id.
  induction l as [|x r IH]; simpl; [reflexivity|].
  destruct (ObjectId_eqb (id_of x) o) eqn:E; simpl.
  - rewrite Hid. apply ObjectId_eqb_eq in E.
    destruct (ObjectId_eqb (id_of x) o') eqn:E'; [|reflexivity].
    apply ObjectId_eqb_eq in E'. congruence.
  - destruct (ObjectId_eqb (id_of x) o'); [reflexivity | exact IH].
Qed.

Lemma map_id_update_by_id (o : ObjectId) (f : D -> D) (l : list D) :
  (forall x, id_of (f x) = id_of x) ->
  map id_of (update_by_id id_of o f l) = map id_of l.
Proof.
  intros Hid. induction l as [|x r IH]; simpl; [reflexivity|].
  destruct (ObjectId_eqb (id_of x) o); simpl.
  - rewrite Hid. reflexivity.
  - rewrite IH. reflexivity.
Qed.
End DeleteUpdateFacts.

Lemma updateComment_run (commentId : string) (content : option string)
    (user : option ObjectId) (now : Z) (s : Store)
    (o : ObjectId) (c : CommentDoc) :
  truthy content = true ->
  castObjectId commentId = Some o ->
  find_by_id c_id o (db_comments s) = Some c ->
  updateComment commentId content user now s =
  match c_owner c with
  | None => (Err TypeError, s)
  | Some w =>
      if strict_neq (Some (toString w)) (option_map toString user) then
        (Err (ApiError PermissionDenied 400
                "only comment owner can edit their comment"), s)
      else
        let f := Comment.touch now (set_content (value content)) in
        (Ok (mkApiResponse 200 (f c) "Comment edited successfully"),
         Comment.set_comments (update_by_id c_id o f (db_comments s)) s)
  end.
Proof.
  intros Ht Hc Hf. unfold updateComment. rewrite Ht. simpl. unfold bind.
  rewrite Comment_findById_run, Hc, Hf.
  destruct (c_owner c) as [w|]; simpl; [|reflexivity].
  match goal with |- context [if ?b then _ else _] => destruct b end;
    [reflexivity|].
  unfold Comment.findByIdAndUpdate, bind. simpl.
  rewrite (find_by_id_id c_id o _ c Hf).
  rewrite (find_update_by_id c_id o _ _ c); [reflexivity | reflexivity | exact Hf].
Qed.

Lemma deleteComment_run (commentId : string) (user : option ObjectId)
    (s : Store) (o : ObjectId) (c : CommentDoc) :
  castObjectId commentId = Some o ->
  find_by_id c_id o (db_comments s) = Some c ->
  deleteComment commentId user s =
  match c_owner c with
  | None => (Err TypeError, s)
  | Some w =>
      if strict_neq (Some (toString w)) (option_map toString user) then
        (Err (ApiError PermissionDenied 400
                "only comment owner can delete their comment"), s)
      else
        (Ok (mkApiResponse 200 commentId "Comment deleted successfully"),
         Like.set_likes
           (map (Like.assign (Like.mkFields (Some o) user)) (db_likes s))
           (Comment.set_comments (delete_by_id c_id o (db_comments s)) s))
  end.
Proof.
  intros Hc Hf. unfold deleteComment, bind.
  rewrite Comment_findById_run, Hc, Hf.
  destruct (c_owner c) as [w|]; simpl; [|reflexivity].
  match goal with |- context [if ?b then _ else _] => destruct b end;
    [reflexivity|].
  unfold Comment.findByIdAndDelete, bind. rewrite cast_run, Hc. simpl.
  rewrite cast_run, Hc. reflexivity.
Qed.

(** X7. For a stored comment that has an owner, [updateComment] (given a
    non-empty content) and [deleteComment] raise the permission failure
    exactly when the acting user is not that owner; a request without
    acting user is refused as well. *)
Theorem comment_mutation_owner_only :
  forall (s : Store) (commentId : string) (content : option string)
         (user : option ObjectId) (now : Z) (c : CommentDoc) (w : ObjectId),
    outcome (Comment.findById commentId s) = Ok (Some c) ->
    c_owner c = Some w ->
    truthy content = true ->
    ((exists st m,
        outcome (updateComment commentId content user now s)
        = Err (ApiError PermissionDenied st m))
     <-> user <> Some w)
    /\ ((exists st m,
           outcome (deleteComment commentId user s)
           = Err (ApiError PermissionDenied st m))
        <-> user <> Some w).
Proof.
  intros s commentId content user now c w Hfound Hw Ht.
  destruct (Comment_findById_found _ _ _ Hfound) as [o [Hc Hf]].
  rewrite (updateComment_run _ _ user now s o c Ht Hc Hf).
  rewrite (deleteComment_run _ user s o c Hc Hf). rewrite Hw.
  assert (Hsym : Some w <> user <-> user <> Some w)
    by (split; intros H E; apply H; congruence).
  assert (Hiff : strict_neq (Some (toString w)) (option_map toString user)
                 = true <-> user <> Some w).
  { rewrite <- Hsym. exact (strict_neq_ids (Some w) user). }
  destruct (strict_neq (Some (toString w)) (option_map toString user));
    simpl; split; split.
  - intros _. apply Hiff. reflexivity.
  - intros _. eauto.
  - intros _. apply Hiff. reflexivity.
  - intros _. eauto.
  - intros [st [m H]]. discriminate H.
  - intros H. apply Hiff in H. discriminate H.
  - intros [st [m H]]. discriminate H.
  - intros H. apply Hiff in H. discriminate H.
Qed.

Lemma comment_mutation_owner_only_witness :
  ((exists st m,
      outcome (updateComment "eeeeeeeeeeeeeeeeeeeeeeee" (Some "edit")
                 (Some bob) 700 sample_store)
      = Err (ApiError PermissionDenied st m))
   <-> Some bob <> Some alice)
  /\ ((exists st m,
         outcome (deleteComment "eeeeeeeeeeeeeeeeeeeeeeee" (Some bob)
                    sample_store)
         = Err (ApiError PermissionDenied st m))
      <-> Some bob <> Some alice).
Proof.
  exact (comment_mutation_owner_only sample_store "eeeeeeeeeeeeeeeeeeeeeeee"
           (Some "edit") (Some bob) 700
           (mkComment com1 "nice" (Some alice) vid1 300 300) alice
           eq_refl eq_refl eq_refl).
Defined.

Lemma ObjectId_eq_dec_opt (a b : option ObjectId) : {a = b} + {a <> b}.
Proof. decide equality. apply ObjectId_eq_dec. Qed.

(** When the comparison lets a request through, the two ids are the
    same. *)
Lemma strict_neq_ids_false (a b : option ObjectId) :
  strict_neq (option_map toString a) (option_map toString b) = false
  -> a = b.
Proof.
  intros E. destruct (ObjectId_eq_dec_opt a b) as [H|H]; [exact H|].
  apply strict_neq_ids in H. congruence.
Qed.

Lemma updateComment_ok_inv (commentId : string) (content : option string)
    (user : option ObjectId) (now : Z) (s : Store)
    (r : ApiResponse CommentDoc string) :
  outcome (updateComment commentId content user now s) = Ok r ->
  truthy content = true
  /\ exists o c w,
       castObjectId commentId = Some o
       /\ find_by_id c_id o (db_comments s) = Some c
       /\ c_owner c = Some w /\ user = Some w.
Proof.
  intros Hr.
  destruct (truthy content) eqn:Ht.
  2: { unfold updateComment in Hr. rewrite Ht in Hr. discriminate Hr. }
  destruct (castObjectId commentId) as [o|] eqn:Hc.
  2: { unfold updateComment, bind in Hr. rewrite Ht in Hr. cbn [negb] in Hr.
       rewrite Comment_findById_run, Hc in Hr. discriminate Hr. }
  destruct (find_by_id c_id o (db_comments s)) as [c|] eqn:Hf.
  2: { unfold updateComment, bind in Hr. rewrite Ht in Hr. cbn [negb] in Hr.
       rewrite Comment_findById_run, Hc, Hf in Hr. discriminate Hr. }
  rewrite (updateComment_run _ _ user now s o c Ht Hc Hf) in Hr.
  destruct (c_owner c) as [w|] eqn:Hw; [|discriminate Hr].
  destruct (strict_neq (Some (toString w)) (option_map toString user)) eqn:E;
    [discriminate Hr|].
  split; [reflexivity|]. exists o, c, w. repeat split; try assumption.
  symmetry. exact (strict_neq_ids_false (Some w) user E).
Qed.

(** X8. A successful [updateComment] rewrites the content of the one
    comment and stamps its [updatedAt]; its id, owner, video and
    creation time stay, a lookup of the comment afterwards returns the
    edited document, every other comment is found as before, and no
    other collection changes. *)
Theorem updateComment_edits_content_only :
  forall (s : Store) (commentId : string) (content : option string)
         (user : option ObjectId) (now : Z)
         (r : ApiResponse CommentDoc string),
    outcome (updateComment commentId content user now s) = Ok r ->
    let s' := store_after (updateComment commentId content user now s) in
    exists c,
      outcome (Comment.findById commentId s) = Ok (Some c)
      /\ data r = mkComment (c_id c) (value content) (c_owner c) (c_video c)
                            (c_createdAt c) now
      /\ outcome (Comment.findById commentId s') = Ok (Some (data r))
      /\ map c_id (db_comments s') = map c_id (db_comments s)
      /\ (forall o', o' <> c_id c ->
            find_by_id c_id o' (db_comments s')
            = find_by_id c_id o' (db_comments s))
      /\ db_users s' = db_users s /\ db_videos s' = db_videos s
      /\ db_likes s' = db_likes s /\ db_playlists s' = db_playlists s.
Proof.
  intros s commentId content user now r Hr s'.
  destruct (updateComment_ok_inv _ _ _ _ _ _ Hr)
    as [Ht [o [c [w [Hc [Hf [Hw Hu]]]]]]].
  subst s'. revert Hr.
  rewrite (updateComment_run _ _ user now s o c Ht Hc Hf), Hw.
  destruct (strict_neq (Some (toString w)) (option_map toString user));
    [discriminate|].
  simpl. intros [= <-]. exists c.
  pose proof (find_by_id_id c_id o _ c Hf) as Hid.
  split; [rewrite Comment_findById_run, Hc; simpl; f_equal; exact Hf|].
  split; [reflexivity|].
  split.
  { rewrite Comment_findById_run, Hc. simpl. f_equal.
    apply (find_update_by_id c_id o); [reflexivity | exact Hf]. }
  split; [apply map_id_update_by_id; reflexivity|].
  split.
  { intros o' Hne. apply find_update_other; [reflexivity | congruence]. }
  repeat split.
Qed.

Lemma updateComment_edits_content_only_witness :
  let s' := store_after (updateComment "eeeeeeeeeeeeeeeeeeeeeeee"
                           (Some "edit") (Some alice) 700 sample_store) in
  exists c,
    outcome (Comment.findById "eeeeeeeeeeeeeeeeeeeeeeee" sample_store)
    = Ok (Some c)
    /\ mkComment com1 "edit" (Some alice) vid1 300 700
       = mkComment (c_id c) "edit" (c_owner c) (c_video c) (c_createdAt c) 700
    /\ outcome (Comment.findById "eeeeeeeeeeeeeeeeeeeeeeee" s')
       = Ok (Some (mkComment com1 "edit" (Some alice) vid1 300 700))
    /\ map c_id (db_comments s') = map c_id (db_comments sample_store)
    /\ (forall o', o' <> c_id c ->
          find_by_id c_id o' (db_comments s')
          = find_by_id c_id o' (db_comments sample_store))
    /\ db_users s' = db_users sample_store
    /\ db_videos s' = db_videos sample_store
    /\ db_likes s' = db_likes sample_store
    /\ db_playlists s' = db_playlists sample_store.
Proof.
  exact (updateComment_edits_content_only sample_store
           "eeeeeeeeeeeeeeeeeeeeeeee" (Some "edit") (Some alice) 700
           (mkApiResponse 200 (mkComment com1 "edit" (Some alice) vid1 300 700)
                          "Comment edited successfully")
           eq_refl).
Defined.

Lemma deleteComment_ok_inv (commentId : string) (user : option ObjectId)
    (s : Store) (r : ApiResponse string string) :
  outcome (deleteComment commentId user s) = Ok r ->
  exists o c w,
    castObjectId commentId = Some o
    /\ find_by_id c_id o (db_comments s) = Some c
    /\ c_owner c = Some w /\ user = Some w.
Proof.
  intros Hr.
  destruct (castObjectId commentId) as [o|] eqn:Hc.
  2: { unfold deleteComment, bind in Hr.
       rewrite Comment_findById_run, Hc in Hr. discriminate Hr. }
  destruct (find_by_id c_id o (db_comments s)) as [c|] eqn:Hf.
  2: { unfold deleteComment, bind in Hr.
       rewrite Comment_findById_run, Hc, Hf in Hr. discriminate Hr. }
  rewrite (deleteComment_run _ user s o c Hc Hf) in Hr.
  destruct (c_owner c) as [w|] eqn:Hw; [|discriminate Hr].
  destruct (strict_neq (Some (toString w)) (option_map toString user)) eqn:E;
    [discriminate Hr|].
  exists o, c, w. repeat split; try assumption.
  symmetry. exact (strict_neq_ids_false (Some w) user E).
Qed.

(** X9. On a store with unique comment ids, a successful
    [deleteComment] answers with the id it was given and removes that
    one comment: a lookup of it afterwards finds nothing, the collection
    is one document shorter and every other comment is found as before.
    No Like is removed: every Like of the store is kept under its id
    and its video, and is rewritten to reference the deleted comment
    with the acting user as [likedBy].  Users, videos and playlists are
    untouched. *)
Theorem deleteComment_removes_one :
  forall (s : Store) (commentId : string) (user : option ObjectId)
         (r : ApiResponse string string),
    unique_comment_ids s ->
    outcome (deleteComment commentId user s) = Ok r ->
    let s' := store_after (deleteComment commentId user s) in
    data r = commentId
    /\ outcome (Comment.findById commentId s') = Ok None
    /\ List.length (db_comments s) = S (List.length (db_comments s'))
    /\ (forall o', castObjectId commentId <> Some o' ->
          find_by_id c_id o' (db_comments s')
          = find_by_id c_id o' (db_comments s))
    /\ (exists o u,
          castObjectId commentId = Some o /\ user = Some u
          /\ db_likes s'
             = map (fun l => mkLike (l_id l) (Some o) (l_video l) u)
                   (db_likes s))
    /\ db_users s' = db_users s /\ db_videos s' = db_videos s
    /\ db_playlists s' = db_playlists s.
Proof.
  intros s commentId user r Hu Hr s'.
  destruct (deleteComment_ok_inv _ _ _ _ Hr) as [o [c [w [Hc [Hf [Hw Huser]]]]]].
  subst s'. revert Hr.
  rewrite (deleteComment_run _ user s o c Hc Hf), Hw.
  destruct (strict_neq (Some (toString w)) (option_map toString user));
    [discriminate|].
  simpl. intros [= <-]. split; [reflexivity|].
  split.
  { rewrite Comment_findById_run, Hc. simpl. f_equal.
    apply find_delete_same. exact Hu. }
  split; [exact (length_delete_by_id c_id o _ c Hf)|].
  split.
  { intros o' Hne. apply find_delete_other. congruence. }
  split.
  { exists o, w. subst user. split; [exact Hc|]. split; reflexivity. }
  repeat split.
Qed.

Lemma sample_store_unique_comments : unique_comment_ids sample_store.
Proof.
  unfold unique_comment_ids. simpl.
  repeat constructor; simpl; intuition discriminate.
Qed.

Lemma deleteComment_removes_one_witness :
  let s' := store_after (deleteComment "eeeeeeeeeeeeeeeeeeeeeeee"
                           (Some alice) sample_store) in
  "eeeeeeeeeeeeeeeeeeeeeeee" = "eeeeeeeeeeeeeeeeeeeeeeee"
  /\ outcome (Comment.findById "eeeeeeeeeeeeeeeeeeeeeeee" s') = Ok None
  /\ List.length (db_comments sample_store) = S (List.length (db_comments s'))
  /\ (forall o', castObjectId "eeeeeeeeeeeeeeeeeeeeeeee" <> Some o' ->
        find_by_id c_id o' (db_comments s')
        = find_by_id c_id o' (db_comments sample_store))
  /\ (exists o u,
        castObjectId "eeeeeeeeeeeeeeeeeeeeeeee" = Some o
        /\ Some alice = Some u
        /\ db_likes s'
           = map (fun l => mkLike (l_id l) (Some o) (l_video l) u)
                 (db_likes sample_store))
  /\ db_users s' = db_users sample_store
  /\ db_videos s' = db_videos sample_store
  /\ db_playlists s' = db_playlists sample_store.
Proof.
  exact (deleteComment_removes_one sample_store "eeeeeeeeeeeeeeeeeeeeeeee"
           (Some alice)
           (mkApiResponse 200 "eeeeeeeeeeeeeeeeeeeeeeee"
                          "Comment deleted successfully")
           sample_store_unique_comments eq_refl).
Defined.

(** ** Playlist mutations *)

Lemma deletePlaylist_run (playlistId : string) (user : option ObjectId)
    (s : Store) (o : ObjectId) (p : PlaylistDoc) :
  castObjectId playlistId = Some o ->
  find_by_id p_id o (db_playlists s) = Some p ->
  deletePlaylist playlistId user s =
  if strict_neq (option_map toString (p_owner p)) (option_map toString user)
  then (Err (ApiError PermissionDenied 400
               "only owner can delete video to thier playlist"), s)
  else (Ok (mkApiResponse 200 "playlist deleted successfully" tt),
        Playlist.set_playlists (delete_by_id p_id o (db_playlists s)) s).
Proof.
  intros Hc Hf. unfold deletePlaylist. rewrite (cast_valid _ _ Hc).
  cbn [negb]. unfold bind. rewrite Playlist_findById_run, Hc, Hf.
  destruct (strict_neq (option_map toString (p_owner p))
                       (option_map toString user)); [reflexivity|].
  unfold Playlist.findByIdAndRemove, bind. rewrite cast_run, Hc. reflexivity.
Qed.

Lemma updatePlaylist_run (playlistId : string) (name description : option string)
    (user : option ObjectId) (now : Z) (s : Store)
    (o : ObjectId) (p : PlaylistDoc) :
  truthy name = true -> truthy description = true ->
  castObjectId playlistId = Some o ->
  find_by_id p_id o (db_playlists s) = Some p ->
  updatePlaylist playlistId name description user now s =
  match user with
  | None => (Err TypeError, s)
  | Some u =>
      if strict_neq (option_map toString (p_owner p)) (Some (toString u)) then
        (Err (ApiError PermissionDenied 400
                "only owner can update to thier playlist"), s)
      else
        let f := Playlist.touch now
                   (set_name_description (value name) (value description)) in
        (Ok (mkApiResponse 200 (Some (f p)) "playlist updated successfully"),
         Playlist.set_playlists (update_by_id p_id o f (db_playlists s)) s)
  end.
Proof.
  intros Hn Hd Hc Hf. unfold updatePlaylist. rewrite (cast_valid _ _ Hc), Hn, Hd.
  cbn [negb orb]. unfold bind. rewrite Playlist_findById_run, Hc, Hf.
  destruct user as [u|]; [|reflexivity].
  cbn [toString_of ret].
  destruct (strict_neq (option_map toString (p_owner p)) (Some (toString u)));
    [reflexivity|].
  unfold Playlist.findByIdAndUpdate, Playlist.updateOne, bind.
  rewrite cast_run, Hc. simpl.
  rewrite (find_update_by_id p_id o _ _ p); [reflexivity | reflexivity | exact Hf].
Qed.

(** X10. On a stored playlist, [deletePlaylist] raises the permission
    failure exactly when the owner of the playlist and the acting user
    differ.  [updatePlaylist], given a name and a description, does the
    same for a request with an acting user, and fails with a type error
    for a request without one. *)
Theorem playlist_mutation_owner_only :
  forall (s : Store) (playlistId : string) (name description : option string)
         (user : option ObjectId) (now : Z) (p : PlaylistDoc),
    outcome (Playlist.findById playlistId s) = Ok (Some p) ->
    truthy name = true -> truthy description = true ->
    ((exists st m,
        outcome (deletePlaylist playlistId user s)
        = Err (ApiError PermissionDenied st m))
     <-> p_owner p <> user)
    /\ (forall u, user = Some u ->
          ((exists st m,
              outcome (updatePlaylist playlistId name description user now s)
              = Err (ApiError PermissionDenied st m))
           <-> p_owner p <> Some u))
    /\ (user = None ->
          outcome (updatePlaylist playlistId name description user now s)
          = Err TypeError).
Proof.
  intros s playlistId name description user now p Hfound Hn Hd.
  destruct (Playlist_findById_found _ _ _ Hfound) as [o [Hc Hf]].
  rewrite (deletePlaylist_run _ user s o p Hc Hf).
  rewrite (updatePlaylist_run _ _ _ user now s o p Hn Hd Hc Hf).
  split; [|split].
  - pose proof (strict_neq_ids (p_owner p) user) as Hiff.
    destruct (strict_neq (option_map toString (p_owner p))
                         (option_map toString user)); simpl; split.
    + intros _. apply Hiff. reflexivity.
    + intros _. eauto.
    + intros [st [m H]]. discriminate H.
    + intros H. apply Hiff in H. discriminate H.
  - intros u ->.
    pose proof (strict_neq_ids (p_owner p) (Some u)) as Hiff.
    change (option_map toString (Some u)) with (Some (toString u)) in Hiff.
    destruct (strict_neq (option_map toString (p_owner p))
                         (Some (toString u))); simpl; split.
    + intros _. apply Hiff. reflexivity.
    + intros _. eauto.
    + intros [st [m H]]. discriminate H.
    + intros H. apply Hiff in H. discriminate H.
  - intros ->. reflexivity.
Qed.

Lemma playlist_mutation_owner_only_witness :
  ((exists st m,
      outcome (deletePlaylist "dddddddddddddddddddddddd" (Some alice)
                 sample_store)
      = Err (ApiError PermissionDenied st m))
   <-> Some bob <> Some alice)
  /\ (forall u, Some alice = Some u ->
        ((exists st m,
            outcome (updatePlaylist "dddddddddddddddddddddddd" (Some "n")
                       (Some "d") (Some alice) 700 sample_store)
            = Err (ApiError PermissionDenied st m))
         <-> Some bob <> Some u))
  /\ (Some alice = None ->
        outcome (updatePlaylist "dddddddddddddddddddddddd" (Some "n")
                   (Some "d") (Some alice) 700 sample_store)
        = Err TypeError).
Proof.
  exact (playlist_mutation_owner_only sample_store "dddddddddddddddddddddddd"
           (Some "n") (Some "d") (Some alice) 700
           (mkPlaylist pl2 "drafts" "nothing published" (Some bob)
                       [vid2] 600 600)
           eq_refl eq_refl eq_refl).
Defined.

Lemma deletePlaylist_ok_inv (playlistId : string) (user : option ObjectId)
    (s : Store) (r : ApiResponse string unit) :
  outcome (deletePlaylist playlistId user s) = Ok r ->
  exists o p,
    castObjectId playlistId = Some o
    /\ find_by_id p_id o (db_playlists s) = Some p
    /\ p_owner p = user.
Proof.
  intros Hr.
  destruct (castObjectId playlistId) as [o|] eqn:Hc.
  2: { unfold deletePlaylist, bind in Hr.
       destruct (negb (isValidObjectId playlistId)); [discriminate Hr|].
       rewrite Playlist_findById_run, Hc in Hr. discriminate Hr. }
  destruct (find_by_id p_id o (db_playlists s)) as [p|] eqn:Hf.
  2: { unfold deletePlaylist, bind in Hr. rewrite (cast_valid _ _ Hc) in Hr.
       cbn [negb] in Hr.
       rewrite Playlist_findById_run, Hc, Hf in Hr. discriminate Hr. }
  rewrite (deletePlaylist_run _ user s o p Hc Hf) in Hr.
  destruct (strict_neq (option_map toString (p_owner p))
                       (option_map toString user)) eqn:E; [discriminate Hr|].
  exists o, p. repeat split; try assumption.
  exact (strict_neq_ids_false _ _ E).
Qed.

(** X11. On a store with unique playlist ids, a successful
    [deletePlaylist] removes that one playlist: a lookup of it afterwards
    finds nothing, the collection is one document shorter, every other
    playlist is found as before, and no other collection changes. *)
Theorem deletePlaylist_removes_one :
  forall (s : Store) (playlistId : string) (user : option ObjectId)
         (r : ApiResponse string unit),
    unique_playlist_ids s ->
    outcome (deletePlaylist playlistId user s) = Ok r ->
    let s' := store_after (deletePlaylist playlistId user s) in
    outcome (Playlist.findById playlistId s') = Ok None
    /\ List.length (db_playlists s) = S (List.length (db_playlists s'))
    /\ (forall o', castObjectId playlistId <> Some o' ->
          find_by_id p_id o' (db_playlists s')
          = find_by_id p_id o' (db_playlists s))
    /\ db_users s' = db_users s /\ db_videos s' = db_videos s
    /\ db_comments s' = db_comments s /\ db_likes s' = db_likes s.
Proof.
  intros s playlistId user r Hu Hr s'.
  destruct (deletePlaylist_ok_inv _ _ _ _ Hr) as [o [p [Hc [Hf Ho]]]].
  subst s'. revert Hr.
  rewrite (deletePlaylist_run _ user s o p Hc Hf).
  destruct (strict_neq (option_map toString (p_owner p))
                       (option_map toString user)); [discriminate|].
  simpl. intros _. split.
  { rewrite Playlist_findById_run, Hc. simpl. f_equal.
    apply find_delete_same. exact Hu. }
  split; [exact (length_delete_by_id p_id o _ p Hf)|].
  split.
  { intros o' Hne. apply find_delete_other. congruence. }
  repeat split.
Qed.

Lemma deletePlaylist_removes_one_witness :
  let s' := store_after (deletePlaylist "dddddddddddddddddddddddd" (Some bob)
                           sample_store) in
  outcome (Playlist.findById "dddddddddddddddddddddddd" s') = Ok None
  /\ List.length (db_playlists sample_store)
     = S (List.length (db_playlists s'))
  /\ (forall o', castObjectId "dddddddddddddddddddddddd" <> Some o' ->
        find_by_id p_id o' (db_playlists s')
        = find_by_id p_id o' (db_playlists sample_store))
  /\ db_users s' = db_users sample_store
  /\ db_videos s' = db_videos sample_store
  /\ db_comments s' = db_comments sample_store
  /\ db_likes s' = db_likes sample_store.
Proof.
  exact (deletePlaylist_removes_one sample_store "dddddddddddddddddddddddd"
           (Some bob)
           (mkApiResponse 200 "playlist deleted successfully" tt)
           sample_store_unique eq_refl).
Defined.

(** X12. [updatePlaylist] by the owner of a stored playlist, with a name
    and a description, succeeds and renames that playlist only: the
    returned playlist has the new name and description and the old id,
    owner, video list and creation time; a lookup afterwards returns it;
    every other playlist is found as before and no other collection
    changes. *)
Theorem updatePlaylist_renames_only :
  forall (s : Store) (playlistId : string) (name description : option string)
         (u : ObjectId) (now : Z) (p : PlaylistDoc),
    outcome (Playlist.findById playlistId s) = Ok (Some p) ->
    truthy name = true -> truthy description = true ->
    p_owner p = Some u ->
    let r := updatePlaylist playlistId name description (Some u) now s in
    let p' := mkPlaylist (p_id p) (value name) (value description)
                         (p_owner p) (p_videos p) (p_createdAt p) now in
    outcome r = Ok (mkApiResponse 200 (Some p') "playlist updated successfully")
    /\ outcome (Playlist.findById playlistId (store_after r)) = Ok (Some p')
    /\ (forall o', o' <> p_id p ->
          find_by_id p_id o' (db_playlists (store_after r))
          = find_by_id p_id o' (db_playlists s))
    /\ db_users (store_after r) = db_users s
    /\ db_videos (store_after r) = db_videos s
    /\ db_comments (store_after r) = db_comments s
    /\ db_likes (store_after r) = db_likes s.
Proof.
  intros s playlistId name description u now p Hfound Hn Hd Ho r p'.
  destruct (Playlist_findById_found _ _ _ Hfound) as [o [Hc Hf]].
  subst r. rewrite (updatePlaylist_run _ _ _ (Some u) now s o p Hn Hd Hc Hf).
  assert (E : strict_neq (option_map toString (p_owner p)) (Some (toString u))
              = false).
  { destruct (strict_neq _ _) eqn:E; [|reflexivity].
    apply (strict_neq_ids (p_owner p) (Some u)) in E. congruence. }
  rewrite E. simpl.
  pose proof (find_by_id_id p_id o _ p Hf) as Hid.
  split; [reflexivity|]. split.
  { rewrite Playlist_findById_run, Hc. simpl.
    rewrite (find_update_by_id p_id o _ _ p);
      [reflexivity | reflexivity | exact Hf]. }
  split.
  { intros o' Hne. apply find_update_other; [reflexivity | congruence]. }
  repeat split.
Qed.

Lemma updatePlaylist_renames_only_witness :
  let r := updatePlaylist "dddddddddddddddddddddddd" (Some "n") (Some "d")
             (Some bob) 700 sample_store in
  let p' := mkPlaylist pl2 "n" "d" (Some bob) [vid2] 600 700 in
  outcome r = Ok (mkApiResponse 200 (Some p') "playlist updated successfully")
  /\ outcome (Playlist.findById "dddddddddddddddddddddddd" (store_after r))
     = Ok (Some p')
  /\ (forall o', o' <> pl2 ->
        find_by_id p_id o' (db_playlists (store_after r))
        = find_by_id p_id o' (db_playlists sample_store))
  /\ db_users (store_after r) = db_users sample_store
  /\ db_videos (store_after r) = db_videos sample_store
  /\ db_comments (store_after r) = db_comments sample_store
  /\ db_likes (store_after r) = db_likes sample_store.
Proof.
  exact (updatePlaylist_renames_only sample_store "dddddddddddddddddddddddd"
           (Some "n") (Some "d") bob 700
           (mkPlaylist pl2 "drafts" "nothing published" (Some bob)
                       [vid2] 600 600)
           eq_refl eq_refl eq_refl eq_refl).
Defined.

(** ** Removing a video *)

Lemma pull_not_In (x : ObjectId) (l : list ObjectId) : ~ In x (pull x l).
Proof.
  unfold pull. intros H. apply filter_In in H. destruct H as [_ H].
  rewrite ObjectId_eqb_refl in H. discriminate H.
Qed.

Lemma pull_absent (x : ObjectId) (l : list ObjectId) :
  ~ In x l -> pull x l = l.
Proof.
  unfold pull. induction l as [|y r IH]; simpl; [reflexivity|].
  intros H. destruct (ObjectId_eqb y x) eqn:E; simpl.
  - apply ObjectId_eqb_eq in E. exfalso. apply H. left. exact E.
  - rewrite IH; [reflexivity|]. intros Hin. apply H. right. exact Hin.
Qed.


(** X13. When the playlist and the video exist and the ownership test
    lets the request through, [removeVideoFromPlaylist] succeeds and
    returns the playlist without any occurrence of the video, its other
    entries in their order; when the video was no member, the video list
    is returned as it was. *)
Theorem removeVideoFromPlaylist_removes :
  forall (s : Store) (playlistId videoId : string) (user : option ObjectId)
         (now : Z) (p : PlaylistDoc) (v : VideoDoc),
    outcome (Playlist.findById playlistId s) = Ok (Some p) ->
    outcome (Video.findById videoId s) = Ok (Some v) ->
    not_owner p v user = false ->
    exists p',
      outcome (removeVideoFromPlaylist playlistId videoId user now s)
      = Ok (mkApiResponse 200 (Some p')
              "Removed video from playlist successfully")
      /\ p_videos p'
         = filter (fun y => negb (ObjectId_eqb y (v_id v))) (p_videos p)
      /\ ~ In (v_id v) (p_videos p')
      /\ (~ In (v_id v) (p_videos p) -> p_videos p' = p_videos p).
Proof.
  intros s playlistId videoId user now p v Hp Hv Hown.
  destruct (Playlist_findById_found _ _ _ Hp) as [o [Hc Hf]].
  destruct (Video_findById_found _ _ _ Hv) as [w [Hcv Hfv]].
  rewrite (removeVideoFromPlaylist_checked _ _ user now s o w p v Hc Hf Hcv Hfv).
  rewrite Hown. simpl. rewrite (find_by_id_id v_id w _ v Hfv).
  eexists. split; [reflexivity|]. simpl.
  split; [reflexivity|]. split; [apply pull_not_In | apply pull_absent].
Qed.

Lemma removeVideoFromPlaylist_removes_witness :
  exists p',
    outcome (removeVideoFromPlaylist "cccccccccccccccccccccccc"
               "222222222222222222222222" (Some alice) 700 sample_store)
    = Ok (mkApiResponse 200 (Some p')
            "Removed video from playlist successfully")
    /\ p_videos p'
       = filter (fun y => negb (ObjectId_eqb y vid2)) [vid1; vid2]
    /\ ~ In vid2 (p_videos p')
    /\ (~ In vid2 [vid1; vid2] -> p_videos p' = [vid1; vid2]).
Proof.
  exact (removeVideoFromPlaylist_removes sample_store
           "cccccccccccccccccccccccc" "222222222222222222222222"
           (Some alice) 700
           (mkPlaylist pl1 "mixed" "one published, one not" (Some alice)
                       [vid1; vid2] 500 500)
           (mkVideo vid2 (Some alice) "f2" "t2" "second" "d2" 90 5 false 200)
           eq_refl eq_refl eq_refl).
Defined.



(** ** Creating and reading playlists *)

Lemma filter_none {A} (f : A -> bool) (l : list A) :
  (forall x, In x l -> f x = false) -> filter f l = [].
Proof.
  induction l as [|x r IH]; simpl; [reflexivity|].
  intros H. rewrite (H x (or_introl eq_refl)). apply IH.
  intros y Hy. apply H. right. exact Hy.
Qed.

Lemma hd_error_filter {A} (f : A -> bool) (l : list A) :
  hd_error (filter f l) = find f l.
Proof.
  induction l as [|x r IH]; simpl; [reflexivity|].
  destruct (f x); [reflexivity | exact IH].
Qed.

Section FreshFacts.
Context {D : Type} (id_of : D -> ObjectId).

Lemma find_app_fresh (l : list D) (d : D) :
  ~ In (id_of d) (map id_of l) ->
  find_by_id id_of (id_of d) (l ++ [d]) = Some d.
Proof.
  unfold find_by_id. induction l as [|x r IH]; simpl; intros H.
  - rewrite ObjectId_eqb_refl. reflexivity.
  - destruct (ObjectId_eqb (id_of x) (id_of d)) eqn:E.
    + apply ObjectId_eqb_eq in E. exfalso. apply H. left. exact E.
    + apply IH. intros Hin. apply H. right. exact Hin.
Qed.

Lemma filter_app_fresh (l : list D) (d : D) :
  ~ In (id_of d) (map id_of l) ->
  filter (fun x => ObjectId_eqb (id_of x) (id_of d)) (l ++ [d]) = [d].
Proof.
  intros H. rewrite filter_app. simpl. rewrite ObjectId_eqb_refl.
  rewrite filter_none; [reflexivity|].
  intros x Hx. apply ObjectId_eqb_neq. intros E. apply H.
  rewrite <- E. apply in_map. exact Hx.
Qed.
End FreshFacts.

(** The join of the member videos reads as plain membership of ids. *)
Lemma pd_lookup_videos_members (s : Store) (p : PlaylistDoc) :
  snd (pd_lookup_videos s p) = member_videos s p.
Proof.
  unfold pd_lookup_videos, lookup_array, member_videos. simpl snd.
  apply filter_ext. intros v. simpl.
  induction (p_videos p) as [|y r IH]; simpl; [reflexivity|].
  rewrite IH. reflexivity.
Qed.

(** X15. [createPlaylist] with a name and a description answers 200 and
    appends a playlist with an empty video list, owned by the acting
    user.  When the new id is fresh, a lookup finds the new playlist,
    yet [getPlaylistById] on it answers 200 with no detail: a playlist
    without videos does not pass the published-video match. *)
Theorem createPlaylist_then_getPlaylistById :
  forall (s : Store) (name description : option string)
         (user : option ObjectId) (newId : ObjectId) (now : Z),
    truthy name = true -> truthy description = true ->
    canonical newId ->
    ~ In newId (map p_id (db_playlists s)) ->
    let p := mkPlaylist newId (value name) (value description) user []
                        now now in
    let r := createPlaylist name description user newId now s in
    outcome r = Ok (mkApiResponse 200 p "playlist created successfully")
    /\ db_playlists (store_after r) = (db_playlists s ++ [p])%list
    /\ outcome (Playlist.findById (toString newId) (store_after r))
       = Ok (Some p)
    /\ outcome (getPlaylistById (toString newId) (store_after r))
       = Ok (mkApiResponse 200 None "playlist fetched successfully").
Proof.
  intros s name description user newId now Hn Hd Hcan Hfresh p r.
  assert (Hr : r = (Ok (mkApiResponse 200 p "playlist created successfully"),
                    Playlist.set_playlists (db_playlists s ++ [p]) s)).
  { subst r. unfold createPlaylist. rewrite Hn, Hd. reflexivity. }
  rewrite Hr. simpl outcome. simpl store_after.
  set (s' := Playlist.set_playlists (db_playlists s ++ [p]) s).
  assert (Hf : find_by_id p_id newId (db_playlists s') = Some p).
  { exact (find_app_fresh p_id (db_playlists s) p Hfresh). }
  split; [reflexivity|]. split; [reflexivity|]. split.
  - rewrite Playlist_findById_run. unfold canonical in Hcan. rewrite Hcan.
    simpl. f_equal. exact Hf.
  - assert (Hagg : playlistVideosAggregate s' (p_id p) = []).
    { unfold playlistVideosAggregate, pd_match_id.
      change (db_playlists s') with (db_playlists s ++ [p])%list.
      rewrite (filter_app_fresh p_id (db_playlists s) p Hfresh).
      cbn [map filter]. unfold pd_match_published.
      rewrite pd_lookup_videos_members.
      unfold member_videos. cbn [p_videos p existsb].
      rewrite filter_none by reflexivity. reflexivity. }
    rewrite (getPlaylistById_found _ s' newId p Hcan Hf).
    change newId with (p_id p). rewrite Hagg. reflexivity.
Qed.

Lemma createPlaylist_then_getPlaylistById_witness :
  let newId := OID "abababababababababababab" in
  let p := mkPlaylist newId "mine" "d" (Some alice) [] 700 700 in
  let r := createPlaylist (Some "mine") (Some "d") (Some alice) newId 700
             sample_store in
  outcome r = Ok (mkApiResponse 200 p "playlist created successfully")
  /\ db_playlists (store_after r) = (db_playlists sample_store ++ [p])%list
  /\ outcome (Playlist.findById (toString newId) (store_after r))
     = Ok (Some p)
  /\ outcome (getPlaylistById (toString newId) (store_after r))
     = Ok (mkApiResponse 200 None "playlist fetched successfully").
Proof.
  apply (createPlaylist_then_getPlaylistById sample_store (Some "mine")
           (Some "d") (Some alice) (OID "abababababababababababab") 700);
    try reflexivity.
  simpl. intros [E | [E | []]]; discriminate E.
Defined.

(** X16. [getUserPlaylists] with a well-formed user id answers 200 with
    one summary per playlist owned by that user, in store order (the
    list travels in the [message] field of the response).  Each summary
    counts every member video that is in the store, published or not,
    and sums their views; an id in the list with no stored video behind
    it counts for nothing. *)
Theorem getUserPlaylists_lists_owned :
  forall (s : Store) (userId : string) (o : ObjectId),
    castObjectId userId = Some o ->
    getUserPlaylists userId s =
    (Ok (mkApiResponse 200 "User playlists fetched successfully"
           (map (fun p =>
                   mkPlaylistSummary (p_id p) (p_name p) (p_description p)
                     (Z.of_nat (List.length (member_videos s p)))
                     (sum_views (member_videos s p))
                     (p_updatedAt p))
                (filter (fun p => match p_owner p with
                                  | Some w => ObjectId_eqb w o
                                  | None => false
                                  end)
                        (db_playlists s)))), s).
Proof.
  intros s userId o Hc. unfold getUserPlaylists.
  rewrite (cast_valid _ _ Hc). cbn [negb]. unfold bind.
  rewrite cast_run, Hc.
  assert (Hagg : userPlaylistsAggregate s o
                 = map (fun p =>
                          mkPlaylistSummary (p_id p) (p_name p)
                            (p_description p)
                            (Z.of_nat (List.length (member_videos s p)))
                            (sum_views (member_videos s p))
                            (p_updatedAt p))
                       (up_match_owner o (db_playlists s))).
  { unfold userPlaylistsAggregate. rewrite map_map.
    apply map_ext. intros p. unfold up_addFields_project.
    rewrite (surjective_pairing (pd_lookup_videos s p)).
    rewrite pd_lookup_videos_members. reflexivity. }
  cbv beta iota zeta. unfold get, ret. rewrite Hagg. reflexivity.
Qed.

Lemma getUserPlaylists_lists_owned_witness :
  getUserPlaylists "aaaaaaaaaaaaaaaaaaaaaaaa" sample_store =
  (Ok (mkApiResponse 200 "User playlists fetched successfully"
         (map (fun p =>
                 mkPlaylistSummary (p_id p) (p_name p) (p_description p)
                   (Z.of_nat (List.length (member_videos sample_store p)))
                   (sum_views (member_videos sample_store p))
                   (p_updatedAt p))
              (filter (fun p => match p_owner p with
                                | Some w => ObjectId_eqb w alice
                                | None => false
                                end)
                      (db_playlists sample_store)))), sample_store).
Proof.
  exact (getUserPlaylists_lists_owned sample_store "aaaaaaaaaaaaaaaaaaaaaaaa"
           alice eq_refl).
Defined.

Lemma lookup_owner_found (s : Store) (p : PlaylistDoc) :
  hd_error (lookup User_field (db_users s)
                   (option_map BObjectId (p_owner p)) "_id")
  = match p_owner p with
    | Some w => find_by_id u_id w (db_users s)
    | None => None
    end.
Proof.
  unfold lookup. rewrite hd_error_filter. destruct (p_owner p) as [w|]; simpl.
  - unfold find_by_id. induction (db_users s) as [|u r IH]; simpl; [reflexivity|].
    rewrite (ObjectId_eqb_sym w (u_id u)).
    destruct (ObjectId_eqb (u_id u) w); [reflexivity | exact IH].
  - induction (db_users s) as [|u r IH]; simpl; [reflexivity | exact IH].
Qed.

(** X17. On a store with unique playlist ids, [getPlaylistById] of a
    playlist that has at least one published member video returns its
    detail: name, description and times of the playlist; every member
    video that is in the store, in store order, published or not;
    their number and the sum of their views; and the username, full
    name and avatar of the user whose id is the playlist's owner. *)
Theorem getPlaylistById_detail :
  forall (s : Store) (playlistId : string) (p : PlaylistDoc) (v : VideoDoc),
    unique_playlist_ids s ->
    outcome (Playlist.findById playlistId s) = Ok (Some p) ->
    In v (member_videos s p) -> v_isPublished v = true ->
    getPlaylistById playlistId s =
    (Ok (mkApiResponse 200
           (Some (mkPlaylistDetail (p_id p) (p_name p) (p_description p)
                    (p_createdAt p) (p_updatedAt p)
                    (Z.of_nat (List.length (member_videos s p)))
                    (sum_views (member_videos s p))
                    (map project_video (member_videos s p))
                    (option_map project_owner
                       match p_owner p with
                       | Some w => find_by_id u_id w (db_users s)
                       | None => None
                       end)))
           "playlist fetched successfully"), s).
Proof.
  intros s playlistId p v Hu Hfound Hin Hpub.
  destruct (Playlist_findById_found _ _ _ Hfound) as [o [Hc Hf]].
  rewrite (getPlaylistById_found _ _ _ _ Hc Hf).
  rewrite (playlistVideosAggregate_found _ _ _ Hu Hf).
  assert (Hyes : pd_match_published (pd_lookup_videos s p) = true).
  { unfold pd_match_published. apply existsb_exists. exists v. split.
    - rewrite pd_lookup_videos_members. exact Hin.
    - rewrite Video_field_isPublished. exact Hpub. }
  rewrite Hyes. cbn [hd_error]. do 3 f_equal.
  change (pd_lookup_videos s p) with (p, snd (pd_lookup_videos s p)).
  unfold pd_lookup_owner. cbn [pd_addFields_project fst snd].
  rewrite pd_lookup_videos_members, lookup_owner_found. reflexivity.
Qed.

Lemma getPlaylistById_detail_witness :
  let p := mkPlaylist pl1 "mixed" "one published, one not" (Some alice)
                      [vid1; vid2] 500 500 in
  getPlaylistById "cccccccccccccccccccccccc" sample_store =
  (Ok (mkApiResponse 200
         (Some (mkPlaylistDetail (p_id p) (p_name p) (p_description p)
                  (p_createdAt p) (p_updatedAt p)
                  (Z.of_nat (List.length (member_videos sample_store p)))
                  (sum_views (member_videos sample_store p))
                  (map project_video (member_videos sample_store p))
                  (option_map project_owner
                     match p_owner p with
                     | Some w => find_by_id u_id w (db_users sample_store)
                     | None => None
                     end)))
         "playlist fetched successfully"), sample_store).
Proof.
  intros p.
  apply (getPlaylistById_detail sample_store "cccccccccccccccccccccccc" p
           (mkVideo vid1 (Some alice) "f1" "t1" "first" "d1" 60 10 true 100)).
  - exact sample_store_unique.
  - reflexivity.
  - simpl. left. reflexivity.
  - reflexivity.
Defined.

(** ** Invariants of the store *)

Lemma sets_update (o : ObjectId) (f : PlaylistDoc -> PlaylistDoc) (s : Store) :
  playlists_are_sets s ->
  (forall q, NoDup (p_videos q) -> NoDup (p_videos (f q))) ->
  playlists_are_sets
    (Playlist.set_playlists (update_by_id p_id o f (db_playlists s)) s).
Proof.
  unfold playlists_are_sets. simpl. intros Hset Hf.
  induction (db_playlists s) as [|x r IH]; simpl; [constructor|].
  inversion Hset as [|? ? Hx Hr]; subst.
  destruct (ObjectId_eqb (p_id x) o).
  - constructor; [apply Hf; exact Hx | exact Hr].
  - constructor; [exact Hx | apply IH; exact Hr].
Qed.

Lemma sets_delete (o : ObjectId) (s : Store) :
  playlists_are_sets s ->
  playlists_are_sets
    (Playlist.set_playlists (delete_by_id p_id o (db_playlists s)) s).
Proof.
  unfold playlists_are_sets. simpl. intros Hset.
  induction (db_playlists s) as [|x r IH]; simpl; [constructor|].
  inversion Hset as [|? ? Hx Hr]; subst.
  destruct (ObjectId_eqb (p_id x) o).
  - exact Hr.
  - constructor; [exact Hx | apply IH; exact Hr].
Qed.

Lemma sets_create (p : PlaylistDoc) (s : Store) :
  playlists_are_sets s -> NoDup (p_videos p) ->
  playlists_are_sets (Playlist.set_playlists (db_playlists s ++ [p]) s).
Proof.
  unfold playlists_are_sets. simpl. intros Hset Hp.
  apply Forall_app. split; [exact Hset | repeat constructor; exact Hp].
Qed.

Ltac keep_sets :=
  first
    [ assumption
    | apply sets_delete; assumption
    | apply sets_create; [assumption | constructor]
    | apply sets_update;
      [ assumption
      | let q := fresh "q" in
        let Hq := fresh "Hq" in
        intros q Hq; cbn [Playlist.touch set_videos set_name_description
                            p_videos];
        first [ exact Hq
              | apply addToSet_NoDup; exact Hq
              | apply NoDup_filter; exact Hq ] ] ].

(** X18. Every mutation handler keeps the invariant that no stored
    playlist lists a video twice: if it holds before a call it holds
    after it, whatever the arguments and whatever the outcome. *)
Theorem mutations_keep_playlists_sets :
  forall (s : Store),
    playlists_are_sets s ->
    (forall videoId content user newId now,
        playlists_are_sets
          (store_after (addComment videoId content user newId now s)))
    /\ (forall commentId content user now,
        playlists_are_sets
          (store_after (updateComment commentId content user now s)))
    /\ (forall commentId user,
        playlists_are_sets (store_after (deleteComment commentId user s)))
    /\ (forall name description user newId now,
        playlists_are_sets
          (store_after (createPlaylist name description user newId now s)))
    /\ (forall playlistId name description user now,
        playlists_are_sets
          (store_after
             (updatePlaylist playlistId name description user now s)))
    /\ (forall playlistId user,
        playlists_are_sets (store_after (deletePlaylist playlistId user s)))
    /\ (forall playlistId videoId user now,
        playlists_are_sets
          (store_after (addVideoToPlaylist playlistId videoId user now s)))
    /\ (forall playlistId videoId user now,
        playlists_are_sets
          (store_after
             (removeVideoFromPlaylist playlistId videoId user now s))).
Proof.
  intros s Hset.
  repeat split; intros; run_handler; repeat branch; keep_sets.
Qed.

Lemma mutations_keep_playlists_sets_witness :
  playlists_are_sets
    (store_after (addVideoToPlaylist "dddddddddddddddddddddddd"
                    "111111111111111111111111" (Some alice) 700 sample_store))
  /\ playlists_are_sets
       (store_after (removeVideoFromPlaylist "cccccccccccccccccccccccc"
                       "222222222222222222222222" (Some alice) 700
                       sample_store)).
Proof.
  split.
  - apply (proj1 (proj2 (proj2 (proj2 (proj2 (proj2 (proj2
             (mutations_keep_playlists_sets sample_store
                sample_store_sets)))))))).
  - apply (proj2 (proj2 (proj2 (proj2 (proj2 (proj2 (proj2
             (mutations_keep_playlists_sets sample_store
                sample_store_sets)))))))).
Defined.

Section UniqueFacts.
Context {D : Type} (id_of : D -> ObjectId).

Lemma In_map_delete_by_id (o a : ObjectId) (l : list D) :
  In a (map id_of (delete_by_id id_of o l)) -> In a (map id_of l).
Proof.
  induction l as [|x r IH]; simpl; [tauto|].
  destruct (ObjectId_eqb (id_of x) o); simpl.
  - intros H. right. exact H.
  - intros [H | H]; [left; exact H | right; apply IH; exact H].
Qed.

Lemma NoDup_delete_by_id (o : ObjectId) (l : list D) :
  NoDup (map id_of l) -> NoDup (map id_of (delete_by_id id_of o l)).
Proof.
  induction l as [|x r IH]; simpl; intros H; [exact H|].
  inversion H as [|? ? Hnotin Hr]; subst.
  destruct (ObjectId_eqb (id_of x) o); simpl; [exact Hr|].
  constructor; [|apply IH; exact Hr].
  intros Hin. apply Hnotin. exact (In_map_delete_by_id o _ r Hin).
Qed.

Lemma NoDup_update_by_id (o : ObjectId) (f : D -> D) (l : list D) :
  (forall x, id_of (f x) = id_of x) ->
  NoDup (map id_of l) -> NoDup (map id_of (update_by_id id_of o f l)).
Proof.
  intros Hid H. rewrite (map_id_update_by_id id_of o f l Hid). exact H.
Qed.

Lemma NoDup_append_fresh (d : D) (l : list D) :
  NoDup (map id_of l) -> ~ In (id_of d) (map id_of l) ->
  NoDup (map id_of (l ++ [d])).
Proof.
  intros H Hfresh. rewrite map_app. simpl.
  apply NoDup_app; [exact H | repeat constructor; simpl; tauto |].
  intros a Ha [<- | []]. exact (Hfresh Ha).
Qed.
End UniqueFacts.

Ltac keep_unique_one H :=
  first
    [ exact H
    | apply (NoDup_delete_by_id p_id); exact H
    | apply (NoDup_delete_by_id c_id); exact H
    | apply (NoDup_update_by_id p_id); [intros; reflexivity | exact H]
    | apply (NoDup_update_by_id c_id); [intros; reflexivity | exact H]
    | apply (NoDup_append_fresh p_id); [exact H | assumption]
    | apply (NoDup_append_fresh c_id); [exact H | assumption] ].

Ltac keep_unique Hp Hc :=
  repeat match goal with x := _ |- _ => subst x end;
  run_handler; repeat branch;
  unfold unique_playlist_ids, unique_comment_ids in *;
  cbn [db_playlists db_comments Playlist.set_playlists Comment.set_comments
       Like.set_likes];
  (split; [keep_unique_one Hp | keep_unique_one Hc]).

(** X19. Every mutation handler keeps the ids of playlists and of
    comments unique, whatever the arguments and whatever the outcome;
    the two creating handlers do so when the id that the store supplies
    for the new document is not in use. *)
Theorem mutations_keep_ids_unique :
  forall (s : Store),
    unique_playlist_ids s -> unique_comment_ids s ->
    (forall videoId content user newId now,
        ~ In newId (map c_id (db_comments s)) ->
        let s' := store_after (addComment videoId content user newId now s) in
        unique_playlist_ids s' /\ unique_comment_ids s')
    /\ (forall commentId content user now,
        let s' := store_after (updateComment commentId content user now s) in
        unique_playlist_ids s' /\ unique_comment_ids s')
    /\ (forall commentId user,
        let s' := store_after (deleteComment commentId user s) in
        unique_playlist_ids s' /\ unique_comment_ids s')
    /\ (forall name description user newId now,
        ~ In newId (map p_id (db_playlists s)) ->
        let s' := store_after
                    (createPlaylist name description user newId now s) in
        unique_playlist_ids s' /\ unique_comment_ids s')
    /\ (forall playlistId name description user now,
        let s' := store_after
                    (updatePlaylist playlistId name description user now s) in
        unique_playlist_ids s' /\ unique_comment_ids s')
    /\ (forall playlistId user,
        let s' := store_after (deletePlaylist playlistId user s) in
        unique_playlist_ids s' /\ unique_comment_ids s')
    /\ (forall playlistId videoId user now,
        let s' := store_after
                    (addVideoToPlaylist playlistId videoId user now s) in
        unique_playlist_ids s' /\ unique_comment_ids s')
    /\ (forall playlistId videoId user now,
        let s' := store_after
                    (removeVideoFromPlaylist playlistId videoId user now s) in
        unique_playlist_ids s' /\ unique_comment_ids s').
Proof.
  intros s Hp Hc.
  split; [intros; keep_unique Hp Hc|].
  split; [intros; keep_unique Hp Hc|].
  split; [intros; keep_unique Hp Hc|].
  split; [intros; keep_unique Hp Hc|].
  split; [intros; keep_unique Hp Hc|].
  split; [intros; keep_unique Hp Hc|].
  split; intros; keep_unique Hp Hc.
Qed.

Lemma mutations_keep_ids_unique_witness :
  let s' := store_after
              (createPlaylist (Some "mine") (Some "d") (Some alice)
                 (OID "abababababababababababab") 700 sample_store) in
  unique_playlist_ids s' /\ unique_comment_ids s'.
Proof.
  apply (proj1 (proj2 (proj2 (proj2
           (mutations_keep_ids_unique sample_store sample_store_unique
              sample_store_unique_comments))))).
  simpl. intros [E | [E | []]]; discriminate E.
Defined.

(** X20. The two membership handlers touch nothing but the playlist
    they are given: whatever the arguments and the outcome, users,
    videos, comments and likes are as before, the ids of the playlists
    are the same in the same order, and every playlist with another id
    is found unchanged. *)
Theorem membership_touches_one_playlist :
  forall (s : Store) (playlistId videoId : string) (user : option ObjectId)
         (now : Z),
    (let s' := store_after
                 (addVideoToPlaylist playlistId videoId user now s) in
     db_users s' = db_users s /\ db_videos s' = db_videos s
     /\ db_comments s' = db_comments s /\ db_likes s' = db_likes s
     /\ map p_id (db_playlists s') = map p_id (db_playlists s)
     /\ (forall o', castObjectId playlistId <> Some o' ->
           find_by_id p_id o' (db_playlists s')
           = find_by_id p_id o' (db_playlists s)))
    /\ (let s' := store_after
                    (removeVideoFromPlaylist playlistId videoId user now s) in
        db_users s' = db_users s /\ db_videos s' = db_videos s
        /\ db_comments s' = db_comments s /\ db_likes s' = db_likes s
        /\ map p_id (db_playlists s') = map p_id (db_playlists s)
        /\ (forall o', castObjectId playlistId <> Some o' ->
              find_by_id p_id o' (db_playlists s')
              = find_by_id p_id o' (db_playlists s))).
Proof.
  intros s playlistId videoId user now.
  split; cbv zeta; run_handler; repeat branch;
    cbn [db_users db_videos db_comments db_likes db_playlists
         Playlist.set_playlists];
    repeat split; try reflexivity;
    try (apply map_id_update_by_id; intros; reflexivity);
    intros o' Hne; apply find_update_other;
    try (intros; reflexivity);
    try match goal with
        | H : find_by_id p_id ?o _ = Some ?p |- _ <> p_id ?p =>
            rewrite (find_by_id_id p_id o _ p H)
        end;
    congruence.
Qed.

(** ** Missing documents and empty fields *)

(** X21. A well-formed id that matches no document is answered with the
    not-found failure of the handler, with status 404 by
    [getVideoComments], [deleteComment] and [getPlaylistById] and with
    status 400 by the other handlers, and the store is left as it is.
    The membership handlers look the video up before they test the
    playlist, so they report a missing playlist only for a video id
    that is well formed. *)
Theorem missing_document_not_found :
  forall (paginate : list CommentView -> PaginateOptions -> PagedResult)
         (s : Store) (id : string) (o : ObjectId),
    castObjectId id = Some o ->
    (find_by_id v_id o (db_videos s) = None ->
       (forall q_page q_limit user,
           getVideoComments paginate id q_page q_limit user s
           = (Err (ApiError NotFound 404 "Video not found"), s))
       /\ (forall content user newId now,
             truthy content = true ->
             addComment id content user newId now s
             = (Err (ApiError NotFound 400 "video not found"), s)))
    /\ (find_by_id c_id o (db_comments s) = None ->
          (forall content user now,
              truthy content = true ->
              updateComment id content user now s
              = (Err (ApiError NotFound 400 "Comment not found"), s))
          /\ (forall user,
                deleteComment id user s
                = (Err (ApiError NotFound 404 "Comment not found"), s)))
    /\ (find_by_id p_id o (db_playlists s) = None ->
          getPlaylistById id s
          = (Err (ApiError NotFound 404 "playlist not found"), s)
          /\ (forall user,
                deletePlaylist id user s
                = (Err (ApiError NotFound 400 "playlistId not found"), s))
          /\ (forall name description user now,
                truthy name = true -> truthy description = true ->
                updatePlaylist id name description user now s
                = (Err (ApiError NotFound 400 "playlist not found"), s))
          /\ (forall videoId w user now,
                castObjectId videoId = Some w ->
                addVideoToPlaylist id videoId user now s
                = (Err (ApiError NotFound 400 "playlist not found"), s)
                /\ removeVideoFromPlaylist id videoId user now s
                   = (Err (ApiError NotFound 400 "playlist not found"), s))).
Proof.
  intros paginate s id o Hc. pose proof (cast_valid _ _ Hc) as Hv.
  split; [|split].
  - intros Hf. split.
    + intros. unfold getVideoComments, bind.
      rewrite Video_findById_run, Hc, Hf. reflexivity.
    + intros content user newId now Ht. unfold addComment. rewrite Ht.
      cbn [negb]. unfold bind. rewrite Video_findById_run, Hc, Hf. reflexivity.
  - intros Hf. split.
    + intros content user now Ht. unfold updateComment. rewrite Ht.
      cbn [negb]. unfold bind. rewrite Comment_findById_run, Hc, Hf.
      reflexivity.
    + intros user. unfold deleteComment, bind.
      rewrite Comment_findById_run, Hc, Hf. reflexivity.
  - intros Hf. split; [|split; [|split]].
    + unfold getPlaylistById. rewrite Hv. cbn [negb]. unfold bind.
      rewrite Playlist_findById_run, Hc, Hf. reflexivity.
    + intros user. unfold deletePlaylist. rewrite Hv. cbn [negb].
      unfold bind. rewrite Playlist_findById_run, Hc, Hf. reflexivity.
    + intros name description user now Hn Hd. unfold updatePlaylist.
      rewrite Hv, Hn, Hd. cbn [negb orb]. unfold bind.
      rewrite Playlist_findById_run, Hc, Hf. reflexivity.
    + intros videoId w user now Hcv.
      unfold addVideoToPlaylist, removeVideoFromPlaylist. rewrite Hv.
      cbn [negb orb]. unfold bind.
      rewrite Playlist_findById_run, Hc, Hf, Video_findById_run, Hcv.
      split; reflexivity.
Qed.

Lemma missing_document_not_found_witness :
  getVideoComments slice_paginate "999999999999999999999999" None None None
    sample_store
  = (Err (ApiError NotFound 404 "Video not found"), sample_store)
  /\ deleteComment "999999999999999999999999" (Some alice) sample_store
     = (Err (ApiError NotFound 404 "Comment not found"), sample_store)
  /\ deletePlaylist "999999999999999999999999" (Some alice) sample_store
     = (Err (ApiError NotFound 400 "playlistId not found"), sample_store).
Proof.
  pose proof (missing_document_not_found slice_paginate sample_store
                "999999999999999999999999" (OID "999999999999999999999999")
                eq_refl) as [Hv [Hcm Hp]].
  split; [|split].
  - apply (proj1 (Hv eq_refl)).
  - apply (proj2 (Hcm eq_refl)).
  - apply (proj1 (proj2 (Hp eq_refl))).
Defined.

(** X22. The test of the text fields comes first in [addComment],
    [updateComment] and [createPlaylist]: an absent or empty content,
    name or description is answered with the validation failure of
    status 400 and an untouched store, even when the id is malformed or
    matches nothing.  [updatePlaylist] tests its id before, and answers
    the same for a well-formed id. *)
Theorem empty_text_rejected :
  forall (s : Store) (id : string) (content name description : option string)
         (user : option ObjectId) (newId : ObjectId) (now : Z),
    (truthy content = false ->
       addComment id content user newId now s
       = (Err (ApiError ValidationError 400 "content can not be empty"), s)
       /\ updateComment id content user now s
          = (Err (ApiError ValidationError 400
                    "content is required to update"), s))
    /\ (truthy name = false \/ truthy description = false ->
          createPlaylist name description user newId now s
          = (Err (ApiError ValidationError 400
                    "name and description both are required"), s)
          /\ (isValidObjectId id = true ->
                updatePlaylist id name description user now s
                = (Err (ApiError ValidationError 400
                          "name and description are requiered"), s))).
Proof.
  intros s id content name description user newId now. split.
  - intros Ht. unfold addComment, updateComment. rewrite Ht. split; reflexivity.
  - intros H.
    assert (E : negb (truthy name) || negb (truthy description) = true).
    { destruct H as [H | H]; rewrite H; simpl;
        [reflexivity | apply orb_true_r]. }
    split.
    + unfold createPlaylist. rewrite E. reflexivity.
    + intros Hv. unfold updatePlaylist. rewrite Hv, E. reflexivity.
Qed.

Lemma empty_text_rejected_witness :
  (addComment "xyz" (Some "") (Some alice) (OID "abababababababababababab")
     700 sample_store
   = (Err (ApiError ValidationError 400 "content can not be empty"),
      sample_store)
   /\ updateComment "xyz" (Some "") (Some alice) 700 sample_store
      = (Err (ApiError ValidationError 400 "content is required to update"),
         sample_store))
  /\ (createPlaylist (Some "") (Some "x") (Some alice)
        (OID "abababababababababababab") 700 sample_store
      = (Err (ApiError ValidationError 400
                "name and description both are required"), sample_store)
      /\ updatePlaylist "cccccccccccccccccccccccc" (Some "") (Some "x")
           (Some alice) 700 sample_store
         = (Err (ApiError ValidationError 400
                   "name and description are requiered"), sample_store)).
Proof.
  pose proof (empty_text_rejected sample_store "xyz" (Some "") (Some "")
                (Some "x") (Some alice) (OID "abababababababababababab") 700)
    as [Hc Hn].
  pose proof (empty_text_rejected sample_store "cccccccccccccccccccccccc"
                (Some "") (Some "") (Some "x") (Some alice)
                (OID "abababababababababababab") 700) as [_ Hn'].
  split.
  - exact (Hc eq_refl).
  - split.
    + exact (proj1 (Hn (or_introl eq_refl))).
    + exact (proj2 (Hn' (or_introl eq_refl)) eq_refl).
Defined.
